(** * Requirement-coverage reconciliation: the two report generators

    A shallow embedding of [phase0_generate_reports.py] and of
    [Fixes/engine/engine_cli.py], and the properties of their coverage
    ledger, tag normalisation, evidence gate and exit behaviour.

    Conventions of the embedding.
    - Python [str] is [string]; the characters are the ASCII repertoire
      in which headers, delimiters and requirement codes are written.  The
      character classes below are Python's on that range; a character
      above 127 is carried along as an opaque symbol.
    - Python [None] in a CSV cell (what [csv.DictReader] stores for a row
      shorter than the header) is [None : Cell]; a present cell is
      [Some s].
    - A row is the [dict] built by [csv.DictReader], kept as an
      association list in header order (rows no longer than the header).
    - Python sets of strings are [gset string]; the order in which a
      [for] loop or [sorted] receives the elements of a set is not fixed
      by the language, so it is a parameter ([SetIter]).
    - Uncaught exceptions and [sys.exit] are the constructors of [Res]. *)

From Stdlib Require Import Ascii NArith ZArith Lia DecimalString.
From stdpp Require Import base option list strings gmap sorting.

Local Open Scope stdpp_scope.

(** ** Python string primitives *)

Module Py.

Definition ord (c : ascii) : N := N_of_ascii c.

Definition between (lo hi : N) (c : ascii) : bool :=
    (lo <=? ord c)%N && (ord c <=? hi)%N.

  (** [str.isspace] and the regex class [\s]: TAB..CR, FS..US, SPACE. *)
Definition isspace (c : ascii) : bool := between 9 13 c || between 28 32 c.

Definition isdigit_char (c : ascii) : bool := between 48 57 c.
Definition isupper_char (c : ascii) : bool := between 65 90 c.
Definition islower_char (c : ascii) : bool := between 97 122 c.

  (** The regex class [\w]. *)
Definition isword (c : ascii) : bool :=
    isdigit_char c || isupper_char c || islower_char c || bool_decide (c = "_"%char).

Definition upper_char (c : ascii) : ascii :=
    if islower_char c then ascii_of_N (ord c - 32) else c.

Fixpoint upper (s : string) : string :=
    match s with
    | EmptyString => EmptyString
    | String c s' => String (upper_char c) (upper s')
    end.

Definition lower_char (c : ascii) : ascii :=
    if isupper_char c then ascii_of_N (ord c + 32) else c.

Fixpoint lower (s : string) : string :=
    match s with
    | EmptyString => EmptyString
    | String c s' => String (lower_char c) (lower s')
    end.

Fixpoint lstrip (s : string) : string :=
    match s with
    | EmptyString => EmptyString
    | String c s' => if isspace c then lstrip s' else s
    end.

Fixpoint rstrip (s : string) : string :=
    match s with
    | EmptyString => EmptyString
    | String c s' =>
        match rstrip s' with
        | EmptyString => if isspace c then EmptyString else String c EmptyString
        | r => String c r
        end
    end.

  (** [s.strip()] *)
Definition strip (s : string) : string := rstrip (lstrip s).

  (** [s.replace(old, new)] for a one-character [old]. *)
Fixpoint replace (old : ascii) (new : string) (s : string) : string :=
    match s with
    | EmptyString => EmptyString
    | String c s' =>
        if bool_decide (c = old) then new +:+ replace old new s'
        else String c (replace old new s')
    end.

  (** Adds a character to the piece under construction (the head). *)
Definition push (c : ascii) (pieces : list string) : list string :=
    match pieces with
    | p :: ps => String c p :: ps
    | [] => [String c EmptyString]
    end.

  (** [s.split(sep)] for a one-character [sep]: every occurrence cuts. *)
Fixpoint split (sep : ascii) (s : string) : list string :=
    match s with
    | EmptyString => [EmptyString]
    | String c s' =>
        if bool_decide (c = sep) then EmptyString :: split sep s'
        else push c (split sep s')
    end.

  (** [re.split(r"[D]+", s)] for a character class [D]: every maximal run
      of [D] cuts once.  [in_run] says that the previous character was in
      [D]. *)
Fixpoint re_split_run (D : ascii → bool) (in_run : bool) (s : string)
    : list string :=
    match s with
    | EmptyString => [EmptyString]
    | String c s' =>
        if D c then
          if in_run then re_split_run D true s'
          else EmptyString :: re_split_run D true s'
        else push c (re_split_run D false s')
    end.

Definition re_split (D : ascii → bool) (s : string) : list string :=
    re_split_run D false s.

  (** [re.sub(r"[D]+", "", s)]: every run of [D] is deleted. *)
Fixpoint re_sub_del (D : ascii → bool) (s : string) : string :=
    match s with
    | EmptyString => EmptyString
    | String c s' => if D c then re_sub_del D s' else String c (re_sub_del D s')
    end.

Fixpoint startswith (p s : string) : bool :=
    match p, s with
    | EmptyString, _ => true
    | String a p', String b s' => bool_decide (a = b) && startswith p' s'
    | String _ _, EmptyString => false
    end.

  (** [s[n:]] *)
Fixpoint drop (n : nat) (s : string) : string :=
    match n, s with
    | O, _ => s
    | S n', String _ s' => drop n' s'
    | S _, EmptyString => EmptyString
    end.

Fixpoint all_digits (s : string) : bool :=
    match s with
    | EmptyString => true
    | String c s' => isdigit_char c && all_digits s'
    end.

  (** [s.isdigit()]: at least one character, all of them digits. *)
Definition isdigit (s : string) : bool :=
    match s with
    | EmptyString => false
    | _ => all_digits s
    end.

Fixpoint int_acc (acc : N) (s : string) : N :=
    match s with
    | EmptyString => acc
    | String c s' => int_acc (10 * acc + (ord c - 48))%N s'
    end.

  (** [int(s)] on a string of digits. *)
Definition int (s : string) : N := int_acc 0 s.

  (** [str(n)] / [f"{n}"] for a non-negative integer. *)
Definition str_of_N (n : N) : string := NilEmpty.string_of_uint (N.to_uint n).
Definition str_of_nat (n : nat) : string := NilEmpty.string_of_uint (Nat.to_uint n).

  (** [sep.join(l)] *)
Fixpoint join (sep : string) (l : list string) : string :=
    match l with
    | [] => EmptyString
    | [x] => x
    | x :: l' => x +:+ sep +:+ join sep l'
    end.

  (** [sorted(l)] on strings: code-point lexicographic order. *)
Definition sorted (l : list string) : list string := merge_sort String.le l.

  (** [s[0]] when there is one. *)
Definition head (s : string) : option ascii :=
    match s with
    | EmptyString => None
    | String c _ => Some c
    end.

  (** Truthiness of a string: [if s]. *)
Definition truthy (s : string) : bool := negb (bool_decide (s = EmptyString)).

End Py.


(** ** The pattern [CR_RX]

    [re.compile(r"\bCR[-_ ]?0?([1-9]|10)\b", re.I)], matched by
    backtracking in the order of the pattern: the optional separator and
    the optional zero are tried present first, the alternative [[1-9]]
    before [10]. *)

Module CR_RX.

Definition word_at (o : option ascii) : bool :=
    match o with
    | Some c => Py.isword c
    | None => false
    end.

  (** [\b] between the character before and the character after. *)
Definition boundary (prev next : option ascii) : bool :=
    xorb (word_at prev) (word_at next).

Definition is_sep (c : ascii) : bool :=
    bool_decide (c = "-"%char) || bool_decide (c = "_"%char)
    || bool_decide (c = " "%char).

  (** [([1-9]|10)\b]: the captured group and the number of characters. *)
Definition group_b (s : string) : option (string * nat) :=
    match s with
    | String d r =>
        if Py.between 49 57 d && boundary (Some d) (Py.head r)
        then Some (String d EmptyString, 1)
        else
          match r with
          | String z r2 =>
              if bool_decide (d = "1"%char) && bool_decide (z = "0"%char)
                 && boundary (Some z) (Py.head r2)
              then Some ("10", 2)
              else None
          | EmptyString => None
          end
    | EmptyString => None
    end.

Definition longer (m : option (string * nat)) : option (string * nat) :=
    match m with
    | Some (g, n) => Some (g, S n)
    | None => None
    end.

  (** [0?([1-9]|10)\b] *)
Definition zero_group_b (s : string) : option (string * nat) :=
    match s with
    | String z r =>
        if bool_decide (z = "0"%char) then
          match group_b r with
          | Some m => longer (Some m)
          | None => group_b s
          end
        else group_b s
    | EmptyString => group_b s
    end.

  (** [[-_ ]?0?([1-9]|10)\b] *)
Definition sep_zero_group_b (s : string) : option (string * nat) :=
    match s with
    | String c r =>
        if is_sep c then
          match zero_group_b r with
          | Some m => longer (Some m)
          | None => zero_group_b s
          end
        else zero_group_b s
    | EmptyString => zero_group_b s
    end.

Definition is_C (c : ascii) : bool := bool_decide (Py.upper_char c = "C"%char).
Definition is_R (c : ascii) : bool := bool_decide (Py.upper_char c = "R"%char).

  (** A match of the whole pattern starting at [s], whose left
      neighbour is [prev]. *)
Definition match_here (prev : option ascii) (s : string)
    : option (string * nat) :=
    if boundary prev (Py.head s) then
      match s with
      | String c (String r rest) =>
          if is_C c && is_R r then longer (longer (sep_zero_group_b rest))
          else None
      | _ => None
      end
    else None.

  (** [finditer]: leftmost matches, the search resuming where the last
      match ended.  [skip] counts the characters of the last match still
      to pass. *)
Fixpoint scan (prev : option ascii) (skip : nat) (s : string) : list string :=
    match s with
    | EmptyString => []
    | String c s' =>
        match skip with
        | S k => scan (Some c) k s'
        | O =>
            match match_here prev s with
            | Some (g, n) => g :: scan (Some c) (Nat.pred n) s'
            | None => scan (Some c) 0 s'
            end
        end
    end.

  (** [[m.group(1) for m in CR_RX.finditer(txt)]] *)
Definition finditer (txt : string) : list string := scan None 0 txt.

End CR_RX.

(** ** Results, rows, sets *)

Inductive Res (A : Type) : Type :=
| Ok (a : A)
| Exit (status : Z) (msg : string)
| Raise (exc : string).
Arguments Ok {A} a.
Arguments Exit {A} status msg.
Arguments Raise {A} exc.

Global Instance Res_ret : MRet Res := λ A a, Ok a.
Global Instance Res_bind : MBind Res := λ A B f m,
  match m with
  | Ok a => f a
  | Exit st msg => Exit st msg
  | Raise e => Raise e
  end.

(** A [for] loop whose body may raise. *)
Fixpoint for_each {A S : Type} (body : A → S → Res S) (l : list A) (s : S)
  : Res S :=
  match l with
  | [] => Ok s
  | x :: l' => s' ← body x s; for_each body l' s'
  end.

(** The status the interpreter hands to the shell. *)
Definition exit_status {A} (r : Res A) : Z :=
  match r with
  | Ok _ => 0
  | Exit st _ => st
  | Raise _ => 1
  end.

Definition Cell : Type := option string.
Definition Row : Type := list (string * Cell).

Fixpoint dict_lookup (row : Row) (k : string) : option Cell :=
  match row with
  | [] => None
  | (k', v) :: row' => if decide (k' = k) then Some v else dict_lookup row' k
  end.

(** [row.get(k, default)] *)
Definition row_get (row : Row) (k : string) (default : Cell) : Cell :=
  match dict_lookup row k with
  | Some v => v
  | None => default
  end.

(** [row.keys()] *)
Definition keys (row : Row) : list string := row.*1.

(** [str(v)] of a cell. *)
Definition py_str (v : Cell) : string :=
  match v with
  | Some s => s
  | None => "None"
  end.

(** The order in which the elements of a set are visited. *)
Class SetIter : Type := {
  iter : gset string → list string;
  iter_perm : ∀ X, iter X ≡ₚ elements X
}.

Definition canonical_iter : SetIter :=
  {| iter := elements; iter_perm := λ X, reflexivity (elements X) |}.

Definition reversed_iter : SetIter :=
  {| iter := λ X, reverse (elements X);
     iter_perm := λ X, reverse_Permutation (elements X) |}.

(** Files written so far, oldest first, and processes that write. *)
Section Process.
Context {File : Type}.

Definition Fs : Type := list (string * File).
Definition Proc (A : Type) : Type := Fs → Res A * Fs.

Definition proc_ret {A} (a : A) : Proc A := λ fs, (Ok a, fs).
Definition proc_bind {A B} (m : Proc A) (k : A → Proc B) : Proc B := λ fs,
    match m fs with
    | (Ok a, fs') => k a fs'
    | (Exit st msg, fs') => (Exit st msg, fs')
    | (Raise e, fs') => (Raise e, fs')
    end.
Definition lift {A} (r : Res A) : Proc A := λ fs, (r, fs).
Definition sys_exit {A} (st : Z) (msg : string) : Proc A := lift (Exit st msg).
Definition write (path : string) (f : File) : Proc unit := λ fs,
    (Ok tt, fs ++ [(path, f)]).
Definition run {A} (m : Proc A) : Res A * Fs := m [].
End Process.
Arguments Fs : clear implicits.
Arguments Proc : clear implicits.

Notation "x <- m ;; k" := (proc_bind m (λ x, k))
  (at level 100, m at next level, right associativity, only parsing).
Notation "m ;;; k" := (proc_bind m (λ _, k))
  (at level 100, right associativity, only parsing).

(** ** [phase0_generate_reports.py] *)

Module Phase0.

Definition QUESTIONS : string := "./Fixes/questions.csv".
Definition PDF : string := "./Fixes/pdf_temp_export.pdf".
Definition OUTDIR : string := "./Fixes/reports".
Definition COVERAGE_OUT : string := OUTDIR +:+ "/coverage_report.csv".
Definition BINDING_OUT : string := OUTDIR +:+ "/binding_map_v1.json".

Definition LETTERS : list string := ["A"; "B"; "C"; "D"; "E"; "F"; "G"].

Definition REQS : list string :=
    ((λ i, "CR" +:+ Py.str_of_nat i) <$> seq 1 10) ++ LETTERS.

Definition ID_CANDS : list string := ["id"; "question_id"; "qid"; "key"; "ref"].
Definition TXT_CANDS : list string := ["text"; "question"; "prompt"; "body"; "label"].
Definition TAG_CANDS : list string :=
    ["tags"; "tag"; "controls"; "control"; "categories"; "category"; "cr"; "mapping"].

  (** The class [[\s_-]] of [norm_cr]. *)
Definition is_separator (c : ascii) : bool :=
    Py.isspace c || bool_decide (c = "_"%char) || bool_decide (c = "-"%char).

Definition norm_cr (tok : string) : option string :=
    let t := Py.upper (Py.re_sub_del is_separator tok) in
    if Py.startswith "CR" t then
      let n := Py.drop 2 t in
      if Py.isdigit n && (1 <=? Py.int n)%N && (Py.int n <=? 10)%N
      then Some ("CR" +:+ Py.str_of_N (Py.int n))
      else None
    else None.

  (** The class [[,\|;/\s]] of [tokens_from]. *)
Definition is_delim (c : ascii) : bool :=
    bool_decide (c = ","%char) || bool_decide (c = "|"%char)
    || bool_decide (c = ";"%char) || bool_decide (c = "/"%char)
    || Py.isspace c.

Definition tokens_from (val : Cell) : gset string :=
    match val with
    | None => ∅
    | Some s =>
        if Py.truthy s then
          let toks := Py.re_split is_delim s in
          list_to_set
            ((λ t, Py.upper (Py.strip t))
               <$> filter (λ t, Py.truthy (Py.strip t) = true) toks)
        else ∅
    end.

  (** The first column, in header order, whose lower-cased name is a
      candidate: [next((c for c in cols if c.lower() in cands), None)]. *)
Definition first_col (cands cols : list string) : option string :=
    head (filter (λ c, Py.lower c ∈ cands) cols).

Definition all_cols (cands cols : list string) : list string :=
    filter (λ c, Py.lower c ∈ cands) cols.

  (** [if qid not in cov[code]: cov[code].append(qid)] *)
Definition record (qid code : string) (cov : gmap string (list string))
    : Res (gmap string (list string)) :=
    match cov !! code with
    | None => Raise "KeyError"
    | Some ids =>
        if decide (qid ∈ ids) then Ok cov
        else Ok (<[code := ids ++ [qid]]> cov)
    end.

  (** [row.get(id_field) or f"row{idx}"] *)
Definition qid_of (id_field : option string) (idx : nat) (row : Row) : string :=
    let v := match id_field with
             | Some c => row_get row c None
             | None => None
             end in
    match v with
    | Some s => if Py.truthy s then s else "row" +:+ Py.str_of_nat idx
    | None => "row" +:+ Py.str_of_nat idx
    end.

Definition tags_of (tag_fields : list string) (row : Row) : gset string :=
    foldl (λ tags tf, tags ∪ tokens_from (row_get row tf (Some ""))) ∅ tag_fields.

Definition text_of (txt_field : string) (row : Row) : string :=
    py_str (row_get row txt_field (Some "")).

Section Loop.
Context `{SetIter}.
Variables (id_field txt_field : option string) (tag_fields : list string).

Definition row_body (idx : nat) (row : Row) (cov : gmap string (list string))
      : Res (gmap string (list string)) :=
      let qid := qid_of id_field idx row in
      let tags := tags_of tag_fields row in
      cov ← for_each (λ t cov,
                        match norm_cr t with
                        | Some cr => record qid cr cov
                        | None => Ok cov
                        end) (iter tags) cov;
      cov ← for_each (λ letter cov,
                        if decide (letter ∈ tags) then record qid letter cov
                        else Ok cov) LETTERS cov;
      match txt_field with
      | Some tx =>
          for_each (λ g cov, record qid ("CR" +:+ Py.str_of_N (Py.int g)) cov)
                   (CR_RX.finditer (text_of tx row)) cov
      | None => Ok cov
      end.

    (** [for idx, row in enumerate(rows, start=idx)] *)
Fixpoint rows_loop (idx : nat) (rows : list Row) (cov : gmap string (list string))
      : Res (gmap string (list string)) :=
      match rows with
      | [] => Ok cov
      | row :: rest => cov' ← row_body idx row cov; rows_loop (S idx) rest cov'
      end.
End Loop.

Definition cov_init : gmap string (list string) :=
    list_to_map ((λ req, (req, [])) <$> REQS).

Definition coverage_from_rows `{SetIter} (rows : list Row)
    : Res (gmap string (list string)) :=
    match rows with
    | [] => Ok cov_init
    | row0 :: _ =>
        let cols := keys row0 in
        let id_field := first_col ID_CANDS cols in
        let txt_field := first_col TXT_CANDS cols in
        let tag_fields := all_cols TAG_CANDS cols in
        rows_loop id_field txt_field tag_fields 1 rows cov_init
    end.

Record CovRow : Type := {
    Requirement : string;
    Covered : string;
    Count : nat;
    QuestionIDs : string;
    ProposedAddIfGap : string
  }.

Definition cov_row (cov : gmap string (list string)) (req : string) : CovRow :=
    let ids := default [] (cov !! req) in
    {| Requirement := req;
       Covered := match ids with [] => "N" | _ => "Y" end;
       Count := length ids;
       QuestionIDs := Py.join ";" ids;
       ProposedAddIfGap :=
         match ids with [] => "ADD_" +:+ req +:+ "_QUESTION" | _ => "" end |}.

Record PdfField : Type := { bind_to : string; page : option nat; type : string }.

Inductive File : Type :=
  | CoverageCsv (rows : list CovRow)
  | BindingMap (template_pdf : string) (version : nat)
               (fields : list (string * PdfField)).

Definition write_coverage (cov : gmap string (list string)) : Proc File unit :=
    write COVERAGE_OUT (CoverageCsv (cov_row cov <$> REQS)).

Definition write_binding_map (fields : list (string * PdfField)) : Proc File unit :=
    write BINDING_OUT (BindingMap PDF 1 fields).

  (** What the run finds on disk: the parsed question table and what the
      field scan of the template returns, each absent when the file is. *)
Record World : Type := {
    questions : option (list Row);
    pdf : option (Res (list (string * PdfField)))
  }.

Definition ensure (w : World) : Proc File unit :=
    match questions w with
    | None => sys_exit 1 ("Missing " +:+ QUESTIONS)
    | Some _ =>
        match pdf w with
        | None => sys_exit 1 ("Missing " +:+ PDF)
        | Some _ => proc_ret tt
        end
    end.

Definition main `{SetIter} (w : World) : Proc File Z :=
    ensure w ;;;
    let qs := default [] (questions w) in
    cov <- lift (coverage_from_rows qs) ;;
    write_coverage cov ;;;
    fields <- lift (default (Ok []) (pdf w)) ;;
    write_binding_map fields ;;;
    proc_ret 0%Z.

End Phase0.

(** ** [Fixes/engine/engine_cli.py] *)

Module Engine.

Definition REQS : list string :=
    ((λ i, "CR" +:+ Py.str_of_nat i) <$> seq 1 10)
    ++ ["A"; "B"; "C"; "D"; "E"; "F"; "G"].

Definition norm_tags (val : Cell) : gset string :=
    match val with
    | None => ∅
    | Some s =>
        if Py.truthy s then
          let raw := (λ t, Py.replace " " "" (Py.upper (Py.strip t)))
                       <$> Py.split "," (Py.replace ";" "," s) in
          list_to_set (filter (λ t, Py.truthy t = true) raw)
        else ∅
    end.

Record Entry : Type := { count : nat; ids : list string }.

Record State : Type := {
    coverage : gmap string Entry;
    missing_ev : list (string * string);
    total : nat
  }.

  (** [v.strip()] on a cell: [None] has no such method. *)
Definition cell_strip (v : Cell) : Res string :=
    match v with
    | Some s => Ok (Py.strip s)
    | None => Raise "AttributeError"
    end.

  (** [coverage[r]["count"] += 1; coverage[r]["ids"].append(qid)] *)
Definition bump (qid r : string) (cov : gmap string Entry) : Res (gmap string Entry) :=
    match cov !! r with
    | Some e => Ok (<[r := {| count := S (count e); ids := ids e ++ [qid] |}]> cov)
    | None => Raise "KeyError"
    end.

Definition first_of (names : list string) (cols : gset string) : option string :=
    head (filter (λ c, c ∈ cols) names).

Section Loop.
Context `{SetIter}.
Variables (idcol tagcol : string) (evcol : option string).

Definition row_body (row : Row) (st : State) : Res State :=
      let total' := S (total st) in
      qid ← cell_strip (row_get row idcol (Some ""));
      let tags := norm_tags (row_get row tagcol (Some "")) in
      let matched := Py.sorted (filter (λ r, r ∈ tags) REQS) in
      coverage' ← for_each (bump qid) matched (coverage st);
      missing' ←
        (if decide ("EVIDENCE_REQUIRED" ∈ tags) then
           ev ← cell_strip (match evcol with
                            | Some c => row_get row c (Some "")
                            | None => Some ""
                            end);
           if Py.truthy ev then Ok (missing_ev st)
           else Ok (missing_ev st
                      ++ [(qid, Py.join "," (Py.sorted (iter tags)))])
         else Ok (missing_ev st));
      Ok {| coverage := coverage'; missing_ev := missing'; total := total' |}.
End Loop.

Record CovRow : Type := {
    Requirement : string;
    Covered : string;
    Count : nat;
    QuestionIDs : string
  }.

Definition cov_row (coverage : gmap string Entry) (r : string) : Res CovRow :=
    match coverage !! r with
    | Some e =>
        Ok {| Requirement := r;
              Covered := if (0 <? count e)%nat then "Y" else "N";
              Count := count e;
              QuestionIDs := Py.join ";" (ids e) |}
    | None => Raise "KeyError"
    end.

Definition count_of (coverage : gmap string Entry) (r : string) : Res nat :=
    match coverage !! r with
    | Some e => Ok (count e)
    | None => Raise "KeyError"
    end.

Fixpoint collect {A B} (f : A → Res B) (l : list A) : Res (list B) :=
    match l with
    | [] => Ok []
    | x :: l' => y ← f x; ys ← collect f l'; Ok (y :: ys)
    end.

Record Summary : Type := {
    total_questions : nat;
    requirements : list (string * nat);
    missing_evidence_count : nat;
    artifacts : list (string * string)
  }.

Inductive File : Type :=
  | CoverageCsv (rows : list CovRow)
  | GapsCsv (rows : list (string * string))
  | SummaryJson (s : Summary).

  (** The questions file as [csv.DictReader] presents it. *)
Record Table : Type := { fieldnames : list string; rows : list Row }.

Definition init : State :=
    {| coverage := list_to_map ((λ r, (r, {| count := 0; ids := [] |})) <$> REQS);
       missing_ev := [];
       total := 0 |}.

Definition idcol_of (t : Table) : option string :=
    first_of ["id"; "question_id"] (list_to_set (Py.lower <$> fieldnames t)).
Definition tagcol_of (t : Table) : option string :=
    first_of ["tags"; "tag"] (list_to_set (Py.lower <$> fieldnames t)).
Definition evcol_of (t : Table) : option string :=
    first_of ["evidence"; "evidence_path"] (list_to_set (Py.lower <$> fieldnames t)).

  (** The [for row in rd] loop. *)
Definition aggregate `{SetIter} (idcol tagcol : string) (evcol : option string)
    (rows : list Row) : Res State :=
    for_each (row_body idcol tagcol evcol) rows init.

  (** [OUTD] is the report directory; [qcsv] is the questions file, absent
      when [QCSV.exists()] is false. *)
Definition main `{SetIter} (OUTD : string) (qcsv : option Table) : Proc File unit :=
    match qcsv with
    | None => sys_exit 2 "ERR: questions file not found"
    | Some t =>
        match idcol_of t, tagcol_of t with
        | Some idcol, Some tagcol =>
            st <- lift (aggregate idcol tagcol (evcol_of t) (rows t)) ;;
            cov_rows <- lift (collect (cov_row (coverage st)) REQS) ;;
            let cov_csv := OUTD +:+ "/phase2_coverage.csv" in
            write cov_csv (CoverageCsv cov_rows) ;;;
            let gaps_csv := OUTD +:+ "/phase2_missing_evidence.csv" in
            write gaps_csv (GapsCsv (missing_ev st)) ;;;
            counts <- lift (collect (λ r, n ← count_of (coverage st) r;
                                          Ok (r, n)) REQS) ;;
            let summary :=
              {| total_questions := total st;
                 requirements := counts;
                 missing_evidence_count := length (missing_ev st);
                 artifacts := [("coverage_csv", cov_csv);
                               ("missing_evidence_csv", gaps_csv)] |} in
            write (OUTD +:+ "/phase2_summary.json") (SummaryJson summary) ;;;
            proc_ret tt
        | _, _ =>
            sys_exit 3 "ERR: CSV must contain at least ID and TAGS columns (id/tags)."
        end
    end.

End Engine.

(** ** Vocabulary of the statements *)

Section FirstSeenDef.
Context {A : Type} `{EqDecision A}.

  (** [if x not in acc: acc.append(x)] *)
Definition add_new (x : A) (acc : list A) : list A :=
    if decide (x ∈ acc) then acc else acc ++ [x].

  (** Each element once, at the place of its first occurrence. *)
Fixpoint first_seen (l : list A) : list A :=
    match l with
    | [] => []
    | x :: l' => x :: filter (λ y, y ≠ x) (first_seen l')
    end.
End FirstSeenDef.

(** Two strings that differ only in which delimiter of the class [D]
    stands at a place, and in how long a run of delimiters is. *)
Inductive delim_equiv (D : ascii → bool) : string → string → Prop :=
| de_nil : delim_equiv D EmptyString EmptyString
| de_char c s s' :
    delim_equiv D s s' → delim_equiv D (String c s) (String c s')
| de_delim c c' s s' :
    D c = true → D c' = true →
    delim_equiv D s s' → delim_equiv D (String c s) (String c' s')
| de_longer_l c c2 s s' :
    D c = true → D c2 = true →
    delim_equiv D (String c2 s) s' → delim_equiv D (String c (String c2 s)) s'
| de_longer_r c' c2' s s' :
    D c' = true → D c2' = true →
    delim_equiv D s (String c2' s') → delim_equiv D s (String c' (String c2' s')).

(** Two strings that differ only in which character of the class [D]
    stands at a place. *)
Inductive same_up_to (D : ascii → bool) : string → string → Prop :=
| su_nil : same_up_to D EmptyString EmptyString
| su_char c s s' :
    same_up_to D s s' → same_up_to D (String c s) (String c s')
| su_delim c c' s s' :
    D c = true → D c' = true →
    same_up_to D s s' → same_up_to D (String c s) (String c' s').

(** The two delimiters of [norm_tags]. *)
Definition comma_or_semicolon (c : ascii) : bool :=
  bool_decide (c = ","%char) || bool_decide (c = ";"%char).



(** The strings the group of [CR_RX] can capture. *)
Definition CR_GROUPS : list string :=
  ["1"; "2"; "3"; "4"; "5"; "6"; "7"; "8"; "9"; "10"].





(** Sample rows. *)
Definition row_q1 : Row :=
  [("id", Some "Q1"); ("tags", Some "cr1, EVIDENCE_REQUIRED"); ("evidence", Some "")].
Definition row_q2 : Row :=
  [("id", Some "Q2"); ("tags", Some ""); ("text", Some "See CR-03 and CR10 for details")].
Definition row_both : Row :=
  [("id", Some "Q7"); ("tags", Some "CR1"); ("cr", Some "cr-01;A");
   ("text", Some "covers CR1 and cr 01")].
Definition row_short : Row :=
  [("id", Some "Q3"); ("tags", Some "EVIDENCE_REQUIRED"); ("evidence", None)].
Definition row_padded : Row :=
  [("id", Some "Q4"); ("tags", Some "CR01"); ("evidence", Some "doc.pdf")].

Definition row_prose : Row :=
  [("id", Some "Q9"); ("tags", Some "b"); ("text", Some "Plan A or G, see cr 7")].

(** Sample question files for [engine_cli]. *)
Definition table_dup : Engine.Table :=
  {| Engine.fieldnames := ["id"; "tags"; "evidence"];
     Engine.rows := [row_q1; row_q1] |}.
Definition table_short : Engine.Table :=
  {| Engine.fieldnames := ["id"; "tags"; "evidence"];
     Engine.rows := [row_short] |}.
Definition table_empty : Engine.Table :=
  {| Engine.fieldnames := ["ID"; "Tags"]; Engine.rows := [] |}.

(** One record marked under each code of [cs]. *)
Definition mark (q : string) (cs : list string) (cov : gmap string (list string))
  : gmap string (list string) :=
  foldl (λ cov c, alter (add_new q) c cov) cov cs.

(** Every requirement code is a key. *)
Definition covers (cov : gmap string (list string)) : Prop :=
  ∀ c, c ∈ Phase0.REQS → is_Some (cov !! c).

(** [enumerate(rows, start)] *)
Fixpoint enumerate {A} (start : nat) (l : list A) : list (nat * A) :=
  match l with
  | [] => []
  | x :: l' => (start, x) :: enumerate (S start) l'
  end.

(** What [coverage_from_rows] is expected to compute, said without loops
    and without the dictionary: the codes a row matches, the records that
    match a code in input order, and the ledger. *)
Module Phase0Spec.
Import Phase0.

Definition id_field_of (rows : list Row) : option string :=
    first_col ID_CANDS (default [] (keys <$> head rows)).
Definition txt_field_of (rows : list Row) : option string :=
    first_col TXT_CANDS (default [] (keys <$> head rows)).
Definition tag_fields_of (rows : list Row) : list string :=
    all_cols TAG_CANDS (default [] (keys <$> head rows)).

Section Fields.
Variables (id_field txt_field : option string) (tag_fields : list string).

    (** Codes reached through a tag token by [norm_cr]. *)
Definition tag_codes (row : Row) : list string :=
      omap norm_cr (elements (tags_of tag_fields row)).

    (** Letter codes: the letter itself is one of the tags. *)
Definition letter_codes (row : Row) : list string :=
      filter (λ letter, letter ∈ tags_of tag_fields row) LETTERS.

    (** Codes mentioned in the free text. *)
Definition text_codes (row : Row) : list string :=
      match txt_field with
      | Some tx => (λ g, "CR" +:+ Py.str_of_N (Py.int g))
                     <$> CR_RX.finditer (text_of tx row)
      | None => []
      end.

Definition row_codes (row : Row) : list string :=
      tag_codes row ++ letter_codes row ++ text_codes row.

    (** The ids of the records that match [c], in input order. *)
Definition hits (c : string) (start : nat) (rows : list Row) : list string :=
      (λ p, qid_of id_field p.1 p.2)
        <$> filter (λ p, c ∈ row_codes p.2) (enumerate start rows).
End Fields.

  (** The ids of the records that match [c], in input order, each record
      once per row. *)
Definition matching_ids (rows : list Row) (c : string) : list string :=
    hits (id_field_of rows) (txt_field_of rows) (tag_fields_of rows) c 1 rows.

Definition ids_for (rows : list Row) (c : string) : list string :=
    first_seen (matching_ids rows c).


Definition cov_spec (rows : list Row) : gmap string (list string) :=
    list_to_map ((λ c, (c, ids_for rows c)) <$> REQS).

  (** The coverage table, row by row. *)
Definition table_row (rows : list Row) (c : string) : CovRow :=
    let ids := ids_for rows c in
    {| Requirement := c;
       Covered := match ids with [] => "N" | _ => "Y" end;
       Count := length ids;
       QuestionIDs := Py.join ";" ids;
       ProposedAddIfGap :=
         match ids with [] => "ADD_" +:+ c +:+ "_QUESTION" | _ => "" end |}.

Definition coverage_file (rows : list Row) : string * File :=
    (COVERAGE_OUT, CoverageCsv (table_row rows <$> REQS)).
End Phase0Spec.

(** What [engine_cli.main] is expected to compute from the rows. *)
Module EngineSpec.
Import Engine.

Definition bump_entry (qid : string) (e : Entry) : Entry :=
    {| count := S (count e); ids := ids e ++ [qid] |}.

Definition extend (new : list string) (e : Entry) : Entry :=
    {| count := count e + length new; ids := ids e ++ new |}.

  (** Every requirement code is a key. *)
Definition covers (cov : gmap string Entry) : Prop :=
    ∀ r, r ∈ REQS → is_Some (cov !! r).

Section Cols.
Variables (idcol tagcol : string) (evcol : option string).

Definition id_cell (row : Row) : Cell := row_get row idcol (Some "").

Definition ev_cell (row : Row) : Cell :=
      match evcol with
      | Some c => row_get row c (Some "")
      | None => Some ""
      end.

Definition qid_of (row : Row) : string := Py.strip (default "" (id_cell row)).

Definition tags_of (row : Row) : gset string :=
      norm_tags (row_get row tagcol (Some "")).

Definition marked (row : Row) : Prop := "EVIDENCE_REQUIRED" ∈ tags_of row.

    (** Every cell the loop calls [strip] on is a string. *)
Definition complete (row : Row) : Prop :=
      id_cell row ≠ None ∧ (marked row → ev_cell row ≠ None).

    (** The evidence is absent, or empty once trimmed. *)
Definition blank (v : Cell) : Prop :=
      match v with
      | Some s => Py.strip s = ""
      | None => True
      end.

Definition is_gap (row : Row) : Prop := marked row ∧ blank (ev_cell row).

Global Instance marked_dec row : Decision (marked row).
    Proof. unfold marked. apply _. Defined.
Global Instance complete_dec row : Decision (complete row).
    Proof. unfold complete. apply _. Defined.
Global Instance blank_dec v : Decision (blank v).
    Proof. destruct v; simpl; apply _. Defined.
Global Instance is_gap_dec row : Decision (is_gap row).
    Proof. unfold is_gap. apply _. Defined.

Definition gap_entry (row : Row) : string * string :=
      (qid_of row, Py.join "," (Py.sorted (elements (tags_of row)))).

Definition gaps (rows : list Row) : list (string * string) :=
      gap_entry <$> filter is_gap rows.

    (** The ids of the rows tagged [r], in input order. *)
Definition ids_for (rows : list Row) (r : string) : list string :=
      qid_of <$> filter (λ row, r ∈ tags_of row) rows.

Definition entry_for (rows : list Row) (r : string) : Entry :=
      {| count := length (ids_for rows r); ids := ids_for rows r |}.

    (** The codes a row is counted under, in the order of the loop. *)
Definition matched (row : Row) : list string :=
      Py.sorted (filter (λ r, r ∈ tags_of row) REQS).

    (** One iteration of the loop on a complete row. *)
Definition step (row : Row) (st : State) : State :=
      {| coverage := foldl (λ cov r, alter (bump_entry (qid_of row)) r cov)
                           (coverage st) (matched row);
         missing_ev := missing_ev st
                       ++ (if decide (is_gap row) then [gap_entry row] else []);
         total := S (total st) |}.

    (** The coverage table, row by row. *)
Definition table_row (rows : list Row) (r : string) : CovRow :=
      let ids := ids_for rows r in
      {| Requirement := r;
         Covered := match ids with [] => "N" | _ => "Y" end;
         Count := length ids;
         QuestionIDs := Py.join ";" ids |}.

    (** The three artifacts, in the order they are written. *)
Definition files (OUTD : string) (rows : list Row) : Fs File :=
      [ (OUTD +:+ "/phase2_coverage.csv", CoverageCsv (table_row rows <$> REQS));
        (OUTD +:+ "/phase2_missing_evidence.csv", GapsCsv (gaps rows));
        (OUTD +:+ "/phase2_summary.json",
         SummaryJson
           {| total_questions := length rows;
              requirements := (λ r, (r, length (ids_for rows r))) <$> REQS;
              missing_evidence_count := length (gaps rows);
              artifacts :=
                [("coverage_csv", OUTD +:+ "/phase2_coverage.csv");
                 ("missing_evidence_csv",
                  OUTD +:+ "/phase2_missing_evidence.csv")] |}) ].

Definition final_state (rows : list Row) : State :=
      {| coverage := list_to_map ((λ r, (r, entry_for rows r)) <$> REQS);
         missing_ev := gaps rows;
         total := length rows |}.
End Cols.

End EngineSpec.

(** The codes of a row as the loops meet them, for a given visiting
    order of the tag set. *)
Definition visited_codes `{SetIter} (txt_field : option string)
  (tag_fields : list string) (row : Row) : list string :=
  omap Phase0.norm_cr (iter (Phase0.tags_of tag_fields row))
  ++ Phase0Spec.letter_codes tag_fields row
  ++ Phase0Spec.text_codes txt_field row.

(** ** Further vocabulary: the code the claims do not reach *)

(** ** The rest of [phase0_generate_reports.py] *)

(** [d[k] = v] on a dictionary kept in insertion order: a key already
    present keeps its place and takes the new value. *)
Fixpoint dict_set {V} (k : string) (v : V) (d : list (string * V))
  : list (string * V) :=
  match d with
  | [] => [(k, v)]
  | (k', v') :: d' =>
      if decide (k' = k) then (k', v) :: d' else (k', v') :: dict_set k v d'
  end.

(** [d.get(k)] *)
Fixpoint dict_get {V} (d : list (string * V)) (k : string) : option V :=
  match d with
  | [] => None
  | (k', v) :: d' => if decide (k' = k) then Some v else dict_get d' k
  end.

Module Phase0Rest.

(** [{c.lower(): c for c in cols}] *)
Definition lowered (cols : list string) : gmap string string :=
  foldl (λ m c, <[Py.lower c := c]> m) ∅ cols.

(** [pick(cols, cands)] *)
Definition pick (cols cands : list string) : list string :=
  omap (λ c, lowered cols !! c) cands.

(** What the scan sees of an annotation once [a.get_object()] has
    returned: [obj.get("/T")] and [obj.get("/FT")]. *)
Record Annot : Type := { T : option string; FT : option string }.

(** A page: [None] when [list(annots)] raises, else the annotations,
    each [None] when reading it raises.  A page without ["/Annots"] is
    [Some []]. *)
Definition Page : Type := option (list (option Annot)).

(** The document as [PdfReader] presents it: the pages, and what
    [get_fields()] gives, [None] when it returns [None] or raises, else
    its items: the name with, when [v.get] does not raise, the ["/FT"]
    entry of the field if it has one. *)
Record Reader : Type := {
  pages : list Page;
  get_fields : option (list (string * option (option string)))
}.

(** The three ways [extract_pdf_fields] can start: the import fails,
    [PdfReader] or the iteration over its pages raises, or the document
    opens. *)
Inductive PdfEnv : Type :=
| NoPyPDF2 (e : string)
| Unreadable (exc : string)
| Opened (r : Reader).

(** [str(ftype) if ftype else "Unknown"] *)
Definition type_of (ft : option string) : string :=
  match ft with
  | Some f => if Py.truthy f then f else "Unknown"
  | None => "Unknown"
  end.

(** The entry an annotation on page [pi] makes, if its name is set. *)
Definition annot_entry (pi : nat) (a : Annot) : option (string * Phase0.PdfField) :=
  match T a with
  | Some name =>
      if Py.truthy name
      then Some (name, {| Phase0.bind_to := ""; Phase0.page := Some pi;
                          Phase0.type := type_of (FT a) |})
      else None
  | None => None
  end.

(** [for a in annots: try: ... except Exception: continue] *)
Definition scan_annots (pi : nat) (annots : list (option Annot))
  (fields : list (string * Phase0.PdfField)) : list (string * Phase0.PdfField) :=
  foldl (λ fields a,
           match a ≫= annot_entry pi with
           | Some (name, entry) => dict_set name entry fields
           | None => fields
           end) fields annots.

(** [for pi, page in enumerate(r.pages)] *)
Fixpoint scan_pages (pi : nat) (pages : list Page)
  (fields : list (string * Phase0.PdfField)) : list (string * Phase0.PdfField) :=
  match pages with
  | [] => fields
  | page :: rest =>
      let fields' := match page with
                     | Some annots => scan_annots pi annots fields
                     | None => fields
                     end in
      scan_pages (S pi) rest fields'
  end.

(** [for k, v in raw.items(): fields[str(k)] = {...}], inside a [try]
    whose handler keeps what has been assigned. *)
Fixpoint from_get_fields (raw : list (string * option (option string)))
  (fields : list (string * Phase0.PdfField)) : list (string * Phase0.PdfField) :=
  match raw with
  | [] => fields
  | (k, Some ft) :: rest =>
      from_get_fields rest
        (dict_set k {| Phase0.bind_to := ""; Phase0.page := None;
                       Phase0.type := default "Unknown" ft |} fields)
  | (_, None) :: _ => fields
  end.

Definition extract_pdf_fields (env : PdfEnv)
  : Res (list (string * Phase0.PdfField)) :=
  match env with
  | NoPyPDF2 e => Exit 1 ("PyPDF2 not available: " +:+ e)
  | Unreadable exc => Raise exc
  | Opened r =>
      let fields := scan_pages 0 (pages r) [] in
      match fields with
      | [] => Ok (from_get_fields (default [] (get_fields r)) [])
      | _ => Ok fields
      end
  end.


(** [cov.items()]: the ledger is created from [REQS] and no key is added
    later, so the items come in the order of [REQS]. *)
Definition items (cov : gmap string (list string)) : list (string * list string) :=
  omap (λ k, (λ v, (k, v)) <$> cov !! k) Phase0.REQS.

(** [gaps = [k for k, v in cov.items() if not v]] *)
Definition gaps (cov : gmap string (list string)) : list string :=
  (filter (λ kv, kv.2 = []) (items cov)).*1.

End Phase0Rest.

(** Every character of [s] is in the class [P]. *)
Fixpoint all_chars (P : ascii → bool) (s : string) : bool :=
  match s with
  | EmptyString => true
  | String c s' => P c && all_chars P s'
  end.

(** Not a delimiter of [tokens_from]. *)
Definition not_delim (c : ascii) : bool := negb (Phase0.is_delim c).

(** Not a character that [norm_tags] cuts at or deletes. *)
Definition plain (c : ascii) : bool :=
  negb (bool_decide (c = ","%char) || bool_decide (c = ";"%char)
        || bool_decide (c = " "%char)).

(** No white space at the head. *)
Definition head_ok (s : string) : Prop :=
  match s with
  | EmptyString => True
  | String c _ => Py.isspace c = false
  end.

(** What [norm_tags] makes of one piece. *)
Definition engine_token (x : string) : string :=
  Py.replace " " "" (Py.upper (Py.strip x)).



(** [row[k] = v] on an existing key. *)
Fixpoint set_cell (k : string) (v : Cell) (row : Row) : Row :=
  match row with
  | [] => []
  | (k', v') :: row' =>
      if decide (k' = k) then (k', v) :: row' else (k', v') :: set_cell k v row'
  end.

(** The outcome is a normal return. *)
Definition is_Ok {A} (r : Res A) : Prop := ∃ a, r = Ok a.

(** A dictionary built by successive assignments. *)
Definition assign_all {V} (evs d : list (string * V)) : list (string * V) :=
  foldl (λ d kv, dict_set kv.1 kv.2 d) d evs.

(** The named annotations of a document in the order of the scan, as
    the entries they make. *)
Definition page_events (pi : nat) (page : Phase0Rest.Page)
  : list (string * Phase0.PdfField) :=
  match page with
  | Some annots => omap (λ a, a ≫= Phase0Rest.annot_entry pi) annots
  | None => []
  end.

Fixpoint scan_events (pi : nat) (pages : list Phase0Rest.Page)
  : list (string * Phase0.PdfField) :=
  match pages with
  | [] => []
  | page :: rest => page_events pi page ++ scan_events (S pi) rest
  end.

(** The items of [get_fields()] that are read before one raises. *)
Fixpoint readable (raw : list (string * option (option string)))
  : list (string * option string) :=
  match raw with
  | (k, Some ft) :: rest => (k, ft) :: readable rest
  | _ => []
  end.

(** The entry made for an item of [get_fields()]. *)
Definition fallback_entry (kv : string * option string)
  : string * Phase0.PdfField :=
  (kv.1, {| Phase0.bind_to := ""; Phase0.page := None;
            Phase0.type := default "Unknown" kv.2 |}).

(** A form whose signature field recurs on the third page. *)
Definition two_page_form : Phase0Rest.Reader :=
  {| Phase0Rest.pages :=
       [ Some [ Some {| Phase0Rest.T := Some "sig"; Phase0Rest.FT := Some "/Tx" |};
                None;
                Some {| Phase0Rest.T := Some "date"; Phase0Rest.FT := None |} ];
         None;
         Some [ Some {| Phase0Rest.T := None; Phase0Rest.FT := Some "/Btn" |};
                Some {| Phase0Rest.T := Some "sig"; Phase0Rest.FT := Some "/Sig" |} ] ];
     Phase0Rest.get_fields := Some [("other", Some (Some "/Ch"))] |}.


(** A form without annotations, whose third field cannot be read. *)
Definition flat_form : Phase0Rest.Reader :=
  {| Phase0Rest.pages := [Some []; None];
     Phase0Rest.get_fields :=
       Some [("name", Some (Some "/Tx")); ("", Some None);
             ("broken", None); ("late", Some (Some "/Btn"))] |}.

(** * Properties *)

(** Case analysis on a character, and on membership in a literal list. *)
Ltac ascii_cases c :=
  destruct c as [[] [] [] [] [] [] [] []]; vm_compute; try reflexivity;
  try discriminate; auto.


(** ** The primitives on small inputs *)

Example upper_lower_ex :
  Py.upper "cr1, Evidence_required" = "CR1, EVIDENCE_REQUIRED"
  ∧ Py.lower "Question_ID" = "question_id".
Proof. split; reflexivity. Qed.

Example strip_ex : Py.strip "  a b	 " = "a b" ∧ Py.strip " 	" = "".
Proof. split; reflexivity. Qed.

Example split_ex :
  Py.split "," "a,,b," = ["a"; ""; "b"; ""]
  ∧ Py.re_split Phase0.is_delim " a ,; b/c " = [""; "a"; "b"; "c"; ""].
Proof. split; reflexivity. Qed.

Example int_str_ex :
  Py.int "0010" = 10%N ∧ Py.str_of_N 10 = "10" ∧ Py.str_of_nat 12 = "12"
  ∧ Py.isdigit "" = false ∧ Py.isdigit "01" = true ∧ Py.isdigit "1a" = false.
Proof. repeat split; reflexivity. Qed.

Example sorted_join_ex :
  Py.sorted ["b"; "CR10"; "A"; "CR2"] = ["A"; "CR10"; "CR2"; "b"]
  ∧ Py.join ";" ["Q1"; "Q2"; "Q3"] = "Q1;Q2;Q3"
  ∧ Py.join ";" [] = "".
Proof. vm_compute. done. Qed.

Example row_get_ex :
  row_get row_short "evidence" (Some "") = None
  ∧ row_get row_short "missing" (Some "") = Some ""
  ∧ py_str (row_get row_short "evidence" (Some "")) = "None".
Proof. repeat split; reflexivity. Qed.

(** ** Loops in [Res] *)

Section ForEach.
Context {A S : Type}.
Implicit Types (body : A → S → Res S) (l : list A) (s : S).

Lemma for_each_app body l1 l2 s :
    for_each body (l1 ++ l2) s = (s' ← for_each body l1 s; for_each body l2 s').
  Proof.
    revert s. induction l1 as [|x l1 IH]; intros s; simpl; [done|].
    destruct (body x s); simpl; auto.
  Qed.

Lemma for_each_ext body1 body2 l s :
    (∀ x s, x ∈ l → body1 x s = body2 x s) →
    for_each body1 l s = for_each body2 l s.
  Proof.
    revert s. induction l as [|x l IH]; intros s Hext; simpl; [done|].
    rewrite Hext by left. destruct (body2 x s); simpl; try done.
    apply IH. intros; apply Hext. by right.
  Qed.

  (** A loop whose body never raises is a left fold. *)
Lemma for_each_pure (f : A → S → S) l s :
    for_each (λ x s, Ok (f x s)) l s = Ok (foldl (λ s x, f x s) s l).
  Proof. revert s. induction l as [|x l IH]; intros s; simpl; auto. Qed.
End ForEach.

(** ** First-seen order *)

Lemma filter_all {A} (P : A → Prop) `{∀ x, Decision (P x)} (l : list A) :
  (∀ x, x ∈ l → P x) → filter P l = l.
Proof.
  induction l as [|x l IH]; intros Hall; [done|].
  rewrite filter_cons_True by (apply Hall; left).
  f_equal. apply IH. intros y Hy. apply Hall. by right.
Qed.

Section FirstSeen.
Context {A : Type} `{EqDecision A}.
Implicit Types (x : A) (l acc : list A).

Lemma add_new_idem x acc : add_new x (add_new x acc) = add_new x acc.
  Proof.
    unfold add_new. destruct (decide (x ∈ acc)) as [Hin|Hin].
    - by rewrite decide_True.
    - rewrite decide_True; [done|]. set_solver.
  Qed.

Lemma elem_of_add_new x y acc : y ∈ add_new x acc ↔ y = x ∨ y ∈ acc.
  Proof. unfold add_new. case_decide; set_solver. Qed.

Lemma NoDup_add_new x acc : NoDup acc → NoDup (add_new x acc).
  Proof.
    intros Hnd. unfold add_new. case_decide as Hin; [done|].
    apply NoDup_app. split_and!; [done| |apply NoDup_singleton].
    intros y Hy ->%list_elem_of_singleton. done.
  Qed.


Lemma NoDup_first_seen l : NoDup (first_seen l).
  Proof.
    induction l as [|y l IH]; simpl; [constructor|].
    constructor; [|by apply NoDup_filter].
    rewrite list_elem_of_filter. naive_solver.
  Qed.



  (** The accumulating loop of the code computes [first_seen]. *)
Lemma foldl_add_new acc l :
    NoDup acc →
    foldl (λ acc x, add_new x acc) acc l
    = acc ++ filter (λ y, y ∉ acc) (first_seen l).
  Proof.
    revert acc. induction l as [|x l IH]; intros acc Hnd; simpl.
    - by rewrite app_nil_r.
    - rewrite IH by by apply NoDup_add_new.
      unfold add_new. case_decide as Hin.
      + rewrite filter_cons_False by naive_solver. f_equal.
        rewrite list_filter_filter. apply list_filter_iff.
        intros y. split; [|naive_solver]. intros Hy. split; [done|].
        intros ->. done.
      + rewrite filter_cons_True by done. rewrite <- app_assoc. simpl.
        do 2 f_equal. rewrite list_filter_filter. apply list_filter_iff.
        intros y. rewrite elem_of_app, list_elem_of_singleton. naive_solver.
  Qed.

Lemma foldl_add_new_nil l :
    foldl (λ acc x, add_new x acc) [] l = first_seen l.
  Proof.
    rewrite foldl_add_new by constructor. simpl.
    apply filter_all. intros y _. apply not_elem_of_nil.
  Qed.
End FirstSeen.

(** ** Small facts on characters, digits and the requirement codes *)

Lemma between_cases lo hi c :
  Py.between lo hi c = true → (lo ≤ Py.ord c ≤ hi)%N.
Proof. unfold Py.between. rewrite andb_true_iff, !N.leb_le. done. Qed.

Lemma ascii_of_ord c : ascii_of_N (Py.ord c) = c.
Proof. apply ascii_N_embedding. Qed.

Lemma nonzero_digit_group d :
  Py.between 49 57 d = true → String d EmptyString ∈ CR_GROUPS.
Proof.
  intros [??]%between_cases. rewrite <- (ascii_of_ord d).
  assert (Py.ord d = 49 ∨ Py.ord d = 50 ∨ Py.ord d = 51 ∨ Py.ord d = 52
          ∨ Py.ord d = 53 ∨ Py.ord d = 54 ∨ Py.ord d = 55 ∨ Py.ord d = 56
          ∨ Py.ord d = 57)%N as Hd by lia.
  destruct_or!; rewrite Hd; compute_done.
Qed.

(** ** The pattern: what a match captures *)

Lemma group_b_groups s g n : CR_RX.group_b s = Some (g, n) → g ∈ CR_GROUPS.
Proof.
  unfold CR_RX.group_b. destruct s as [|d r]; [done|].
  destruct (Py.between 49 57 d && _) eqn:Hd.
  - apply andb_true_iff in Hd as [Hd _]. intros [= <- <-].
    by apply nonzero_digit_group.
  - intros Hm.
    assert (g = "10") as ->; [|compute_done].
    repeat (case_match; try done); congruence.
Qed.

Lemma longer_Some m g n :
  CR_RX.longer m = Some (g, n) → ∃ n', m = Some (g, n') ∧ n = S n'.
Proof. destruct m as [[g' n']|]; simpl; [|done]. intros [= <- <-]. eauto. Qed.

Lemma zero_group_b_groups s g n :
  CR_RX.zero_group_b s = Some (g, n) → g ∈ CR_GROUPS.
Proof.
  unfold CR_RX.zero_group_b. intros Hm.
  repeat case_match; subst;
    try (apply longer_Some in Hm as (? & ? & ?); simplify_eq);
    eauto using group_b_groups.
Qed.

Lemma sep_zero_group_b_groups s g n :
  CR_RX.sep_zero_group_b s = Some (g, n) → g ∈ CR_GROUPS.
Proof.
  unfold CR_RX.sep_zero_group_b. intros Hm.
  repeat case_match; subst;
    try (apply longer_Some in Hm as (? & ? & ?); simplify_eq);
    eauto using zero_group_b_groups.
Qed.

Lemma match_here_groups prev s g n :
  CR_RX.match_here prev s = Some (g, n) → g ∈ CR_GROUPS.
Proof.
  unfold CR_RX.match_here. intros Hm.
  repeat case_match; subst; try done.
  apply longer_Some in Hm as (? & (? & ? & _)%longer_Some & _).
  eauto using sep_zero_group_b_groups.
Qed.

Lemma scan_groups prev skip s g :
  g ∈ CR_RX.scan prev skip s → g ∈ CR_GROUPS.
Proof.
  revert prev skip. induction s as [|c s IH]; intros prev skip; simpl.
  - by intros ?%elem_of_nil.
  - destruct skip as [|k]; [|by apply IH].
    destruct (CR_RX.match_here prev (String c s)) as [[g' n]|] eqn:Hm;
      [|by apply IH].
    intros [->|?]%elem_of_cons; eauto using match_here_groups.
Qed.

Lemma finditer_groups txt g : g ∈ CR_RX.finditer txt → g ∈ CR_GROUPS.
Proof. apply scan_groups. Qed.


(** ** Every code the loops touch is a key of the ledger *)

Lemma REQS_literal :
  Phase0.REQS = ["CR1"; "CR2"; "CR3"; "CR4"; "CR5"; "CR6"; "CR7"; "CR8";
                 "CR9"; "CR10"; "A"; "B"; "C"; "D"; "E"; "F"; "G"].
Proof. reflexivity. Qed.

Lemma Engine_REQS_literal : Engine.REQS = Phase0.REQS.
Proof. reflexivity. Qed.

Lemma NoDup_REQS : NoDup Phase0.REQS.
Proof. compute_done. Qed.

Lemma cr_code_in_REQS (k : N) :
  (1 ≤ k ≤ 10)%N → "CR" +:+ Py.str_of_N k ∈ Phase0.REQS.
Proof.
  intros Hk.
  assert (k = 1 ∨ k = 2 ∨ k = 3 ∨ k = 4 ∨ k = 5 ∨ k = 6 ∨ k = 7 ∨ k = 8
          ∨ k = 9 ∨ k = 10)%N as Hd by lia.
  destruct_or!; subst k; compute_done.
Qed.

Lemma norm_cr_Some tok c :
  Phase0.norm_cr tok = Some c →
  ∃ k, (1 ≤ k ≤ 10)%N ∧ c = "CR" +:+ Py.str_of_N k.
Proof.
  unfold Phase0.norm_cr. intros Hc.
  repeat (case_match; simplify_eq/=).
  match goal with H : _ && _ = true |- _ =>
    apply andb_true_iff in H as [[_ ?%N.leb_le]%andb_true_iff ?%N.leb_le] end.
  eauto.
Qed.

Lemma norm_cr_in_REQS tok c : Phase0.norm_cr tok = Some c → c ∈ Phase0.REQS.
Proof. intros (k & Hk & ->)%norm_cr_Some. by apply cr_code_in_REQS. Qed.

Lemma letters_in_REQS c : c ∈ Phase0.LETTERS → c ∈ Phase0.REQS.
Proof. unfold Phase0.REQS. set_solver. Qed.

Lemma group_code_in_REQS g :
  g ∈ CR_GROUPS → "CR" +:+ Py.str_of_N (Py.int g) ∈ Phase0.REQS.
Proof.
  unfold CR_GROUPS. intros Hg.
  repeat (apply elem_of_cons in Hg as [->|Hg]; [compute_done|]).
  by apply elem_of_nil in Hg.
Qed.

(** ** The ledger of [coverage_from_rows] *)

Lemma bind_Ok {A B} (a : A) (k : A → Res B) : (Ok a ≫= k) = k a.
Proof. reflexivity. Qed.

Lemma for_each_omap {A B S} (f : A → option B) (body : B → S → Res S) l s :
  for_each (λ x s, match f x with Some c => body c s | None => Ok s end) l s
  = for_each body (omap f l) s.
Proof.
  revert s. induction l as [|x l IH]; intros s; simpl; [done|].
  destruct (f x) as [c|]; simpl; [|apply IH].
  destruct (body c s); simpl; auto.
Qed.

Lemma for_each_fmap {A B S} (f : A → B) (body : B → S → Res S) l s :
  for_each (λ x s, body (f x) s) l s = for_each body (f <$> l) s.
Proof.
  revert s. induction l as [|x l IH]; intros s; simpl; [done|].
  destruct (body (f x) s); simpl; auto.
Qed.

Lemma omap_guard {A} (P : A → Prop) `{∀ x, Decision (P x)} (l : list A) :
  omap (λ x, if decide (P x) then Some x else None) l = filter P l.
Proof.
  induction l as [|x l IH]; [done|].
  rewrite filter_cons. csimpl. rewrite IH. by case_decide.
Qed.

Lemma omap_Some {A B} (f : A → B) (l : list A) : omap (λ x, Some (f x)) l = f <$> l.
Proof. induction l as [|x l IH]; csimpl; [done|]. by rewrite IH. Qed.

Lemma record_alter q c ids (cov : gmap string (list string)) :
  cov !! c = Some ids → Phase0.record q c cov = Ok (alter (add_new q) c cov).
Proof.
  intros Hc. unfold Phase0.record. rewrite Hc.
  assert (alter (add_new q) c cov = <[c := add_new q ids]> cov) as ->.
  { apply map_eq. intros k. rewrite lookup_alter, lookup_insert.
    case_decide; subst; by rewrite ?Hc. }
  unfold add_new. case_decide; [|done]. by rewrite insert_id.
Qed.

Lemma lookup_mark q cs (cov : gmap string (list string)) R :
  mark q cs cov !! R
  = (if decide (R ∈ cs) then add_new q else id) <$> cov !! R.
Proof.
  unfold mark. revert cov. induction cs as [|c cs IH]; intros cov; cbn [foldl].
  - case_decide as Hin; [by apply elem_of_nil in Hin|].
    by rewrite option_fmap_id.
  - rewrite IH, lookup_alter. destruct (decide (c = R)) as [->|Hne].
    + rewrite (decide_True (P := R ∈ R :: cs)) by left.
      rewrite <- option_fmap_compose.
      apply option_fmap_ext. intros ids. simpl.
      case_decide; [apply add_new_idem|done].
    + apply option_fmap_ext. intros ids.
      repeat case_decide; try done; set_solver.
Qed.

Lemma mark_app q cs1 cs2 (cov : gmap string (list string)) :
  mark q (cs1 ++ cs2) cov = mark q cs2 (mark q cs1 cov).
Proof. apply foldl_app. Qed.

Lemma covers_mark q cs cov : covers cov → covers (mark q cs cov).
Proof.
  intros Hcov c Hc. rewrite lookup_mark. apply fmap_is_Some. by apply Hcov.
Qed.

Lemma for_each_record q cs (cov : gmap string (list string)) :
  (∀ c, c ∈ cs → is_Some (cov !! c)) →
  for_each (Phase0.record q) cs cov = Ok (mark q cs cov).
Proof.
  revert cov. induction cs as [|c cs IH]; intros cov Hkeys; simpl; [done|].
  destruct (Hkeys c) as [ids Hc]; [by left|].
  rewrite (record_alter _ _ _ _ Hc). simpl. rewrite IH; [done|].
  intros c' Hc'. apply lookup_alter_is_Some. apply Hkeys. by right.
Qed.

Lemma visited_codes_in_REQS `{SetIter} txf tgf row c :
  c ∈ visited_codes txf tgf row → c ∈ Phase0.REQS.
Proof.
  unfold visited_codes. rewrite !elem_of_app.
  intros [Hc|[Hc|Hc]].
  - apply list_elem_of_omap in Hc as (t & _ & Ht). by eapply norm_cr_in_REQS.
  - apply list_elem_of_filter in Hc as [_ Hc]. by apply letters_in_REQS.
  - unfold Phase0Spec.text_codes in Hc. destruct txf as [tx|].
    + apply list_elem_of_fmap in Hc as (g & -> & Hg).
      apply group_code_in_REQS. by eapply finditer_groups.
    + by apply elem_of_nil in Hc.
Qed.

Lemma visited_codes_spec `{SetIter} txf tgf row c :
  c ∈ visited_codes txf tgf row ↔ c ∈ Phase0Spec.row_codes txf tgf row.
Proof.
  unfold visited_codes, Phase0Spec.row_codes, Phase0Spec.tag_codes.
  rewrite !elem_of_app, !list_elem_of_omap.
  by setoid_rewrite (iter_perm (Phase0.tags_of tgf row)).
Qed.

Lemma row_body_mark `{SetIter} idf txf tgf idx row cov :
  covers cov →
  Phase0.row_body idf txf tgf idx row cov
  = Ok (mark (Phase0.qid_of idf idx row) (visited_codes txf tgf row) cov).
Proof.
  intros Hcov. unfold Phase0.row_body, visited_codes.
  set (q := Phase0.qid_of idf idx row).
  set (tags := Phase0.tags_of tgf row).
  assert (∀ cs cov', covers cov' → (∀ c, c ∈ cs → c ∈ Phase0.REQS) →
            for_each (Phase0.record q) cs cov' = Ok (mark q cs cov')) as Hloop.
  { intros cs cov' Hc Hcs. apply for_each_record. auto. }
  rewrite (for_each_omap Phase0.norm_cr (Phase0.record q)).
  rewrite Hloop; [rewrite bind_Ok|done|]; last first.
  { intros c (t & _ & Ht)%list_elem_of_omap. by eapply norm_cr_in_REQS. }
  rewrite (for_each_ext _
    (λ x s, match (λ l, if decide (l ∈ tags) then Some l else None) x with
            | Some c => Phase0.record q c s
            | None => Ok s
            end)); last first.
  { intros x s _. simpl. by case_decide. }
  rewrite (for_each_omap _ (Phase0.record q)).
  rewrite (omap_guard (λ l, l ∈ tags)).
  change (filter (λ l, l ∈ tags) Phase0.LETTERS)
    with (Phase0Spec.letter_codes tgf row).
  rewrite Hloop; [rewrite bind_Ok| by apply covers_mark |]; last first.
  { intros c [_ Hc]%list_elem_of_filter. by apply letters_in_REQS. }
  rewrite !mark_app. unfold Phase0Spec.text_codes.
  destruct txf as [tx|]; [|done].
  rewrite (for_each_fmap (λ g, "CR" +:+ Py.str_of_N (Py.int g))
                         (Phase0.record q)).
  apply Hloop; [by do 2 apply covers_mark|].
  intros c (g & -> & Hg)%list_elem_of_fmap.
  apply group_code_in_REQS. by eapply finditer_groups.
Qed.

Lemma hits_cons idf txf tgf c idx row rest :
  Phase0Spec.hits idf txf tgf c idx (row :: rest)
  = (if decide (c ∈ Phase0Spec.row_codes txf tgf row)
     then [Phase0.qid_of idf idx row] else [])
    ++ Phase0Spec.hits idf txf tgf c (S idx) rest.
Proof.
  unfold Phase0Spec.hits. cbn [enumerate]. rewrite filter_cons. cbn [snd].
  by case_decide.
Qed.

Lemma rows_loop_spec `{SetIter} idf txf tgf rows :
  ∀ idx cov, covers cov →
    ∃ cov', Phase0.rows_loop idf txf tgf idx rows cov = Ok cov'
            ∧ ∀ R, cov' !! R
                   = (λ ids, foldl (λ acc q, add_new q acc) ids
                                   (Phase0Spec.hits idf txf tgf R idx rows))
                       <$> cov !! R.
Proof.
  induction rows as [|row rest IH]; intros idx cov Hcov.
  - exists cov. split; [done|]. intros R. by destruct (cov !! R).
  - cbn [Phase0.rows_loop]. rewrite row_body_mark by done. rewrite bind_Ok.
    destruct (IH (S idx) _ (covers_mark (Phase0.qid_of idf idx row)
                              (visited_codes txf tgf row) _ Hcov))
      as (cov' & Hrun & Hlook).
    exists cov'. split; [done|]. intros R.
    rewrite Hlook, lookup_mark, hits_cons, <- option_fmap_compose.
    apply option_fmap_ext. intros ids. cbn [compose].
    rewrite foldl_app.
    pose proof (visited_codes_spec txf tgf row R).
    repeat case_decide; try done; naive_solver.
Qed.

Lemma lookup_tabulate {V} (f : string → V) (l : list string) (k : string) :
  (list_to_map ((λ c, (c, f c)) <$> l) : gmap string V) !! k
  = if decide (k ∈ l) then Some (f k) else None.
Proof.
  induction l as [|c l IH].
  - rewrite fmap_nil, list_to_map_nil, lookup_empty.
    case_decide as Hin; [|done]. by apply elem_of_nil in Hin.
  - rewrite fmap_cons, list_to_map_cons, lookup_insert, IH.
    repeat case_decide; subst; try done; set_solver.
Qed.

Lemma lookup_cov_init c :
  Phase0.cov_init !! c = if decide (c ∈ Phase0.REQS) then Some [] else None.
Proof. apply (lookup_tabulate (λ _, [])). Qed.

Lemma covers_cov_init : covers Phase0.cov_init.
Proof. intros c Hc. rewrite lookup_cov_init, decide_True by done. eauto. Qed.

Lemma lookup_cov_spec rows c :
  Phase0Spec.cov_spec rows !! c
  = if decide (c ∈ Phase0.REQS) then Some (Phase0Spec.ids_for rows c) else None.
Proof. apply lookup_tabulate. Qed.

(** The loops of [coverage_from_rows] never raise and compute the
    ledger [cov_spec], whatever the visiting order of the tag sets. *)
Lemma coverage_from_rows_spec `{SetIter} (rows : list Row) :
  Phase0.coverage_from_rows rows = Ok (Phase0Spec.cov_spec rows).
Proof.
  assert (∃ cov, Phase0.coverage_from_rows rows = Ok cov
                 ∧ ∀ R, cov !! R = Phase0Spec.cov_spec rows !! R)
    as (cov & -> & Heq); [|f_equal; by apply map_eq].
  destruct rows as [|row0 rest].
  - exists Phase0.cov_init. split; [done|]. intros R.
    rewrite lookup_cov_init, lookup_cov_spec. by case_decide.
  - unfold Phase0.coverage_from_rows.
    destruct (rows_loop_spec
                (Phase0.first_col Phase0.ID_CANDS (keys row0))
                (Phase0.first_col Phase0.TXT_CANDS (keys row0))
                (Phase0.all_cols Phase0.TAG_CANDS (keys row0))
                (row0 :: rest) 1 _ covers_cov_init) as (cov & Hrun & Hlook).
    exists cov. split; [done|]. intros R.
    rewrite Hlook, lookup_cov_init, lookup_cov_spec.
    case_decide; [|done]. cbn [fmap option_fmap option_map]. f_equal.
    by rewrite foldl_add_new_nil.
Qed.

(** ** The loop of [engine_cli.main] *)

Lemma sorted_Permutation l1 l2 : l1 ≡ₚ l2 → Py.sorted l1 = Py.sorted l2.
Proof.
  intros Hp. unfold Py.sorted.
  apply (Sorted_unique String.le); try apply Sorted_merge_sort; try apply _.
  by rewrite !merge_sort_Permutation.
Qed.

Lemma elem_of_sorted x l : x ∈ Py.sorted l ↔ x ∈ l.
Proof. unfold Py.sorted. by rewrite merge_sort_Permutation. Qed.

Lemma NoDup_sorted l : NoDup l → NoDup (Py.sorted l).
Proof. unfold Py.sorted. by rewrite merge_sort_Permutation. Qed.

Lemma bump_alter q r e (cov : gmap string Engine.Entry) :
  cov !! r = Some e →
  Engine.bump q r cov = Ok (alter (EngineSpec.bump_entry q) r cov).
Proof.
  intros Hr. unfold Engine.bump. rewrite Hr. f_equal.
  apply map_eq. intros k. rewrite lookup_alter, lookup_insert.
  case_decide; subst; by rewrite ?Hr.
Qed.

Lemma for_each_bump q rs (cov : gmap string Engine.Entry) :
  (∀ r, r ∈ rs → is_Some (cov !! r)) →
  for_each (Engine.bump q) rs cov
  = Ok (foldl (λ cov r, alter (EngineSpec.bump_entry q) r cov) cov rs).
Proof.
  revert cov. induction rs as [|r rs IH]; intros cov Hkeys; simpl; [done|].
  destruct (Hkeys r) as [e Hr]; [by left|].
  rewrite (bump_alter _ _ _ _ Hr). simpl. rewrite IH; [done|].
  intros r' Hr'. apply lookup_alter_is_Some. apply Hkeys. by right.
Qed.

Lemma lookup_foldl_alter {V} (f : V → V) rs (m : gmap string V) k :
  NoDup rs →
  foldl (λ m r, alter f r m) m rs !! k
  = (if decide (k ∈ rs) then f else id) <$> m !! k.
Proof.
  intros Hnd. revert m. induction Hnd as [|r rs Hr Hnd IH]; intros m; cbn [foldl].
  - case_decide as Hin; [by apply elem_of_nil in Hin|]. by rewrite option_fmap_id.
  - rewrite IH, lookup_alter.
    repeat case_decide; subst; try done; try set_solver.
    all: by destruct (m !! k).
Qed.

Lemma elem_of_matched tagcol row r :
  r ∈ EngineSpec.matched tagcol row
  ↔ r ∈ Engine.REQS ∧ r ∈ EngineSpec.tags_of tagcol row.
Proof.
  unfold EngineSpec.matched. rewrite elem_of_sorted, list_elem_of_filter.
  naive_solver.
Qed.

Lemma NoDup_matched tagcol row : NoDup (EngineSpec.matched tagcol row).
Proof. apply NoDup_sorted, NoDup_filter, NoDup_REQS. Qed.

Lemma row_body_eq `{SetIter} idcol tagcol evcol row st :
  EngineSpec.covers (Engine.coverage st) →
  Engine.row_body idcol tagcol evcol row st
  = if decide (EngineSpec.complete idcol tagcol evcol row)
    then Ok (EngineSpec.step idcol tagcol evcol row st)
    else Raise "AttributeError".
Proof.
  intros Hcov. unfold Engine.row_body.
  change (row_get row idcol (Some "")) with (EngineSpec.id_cell idcol row).
  change (Engine.norm_tags (row_get row tagcol (Some "")))
    with (EngineSpec.tags_of tagcol row).
  change (match evcol with
          | Some c => row_get row c (Some "")
          | None => Some ""
          end) with (EngineSpec.ev_cell evcol row).
  change (Py.sorted (filter (λ r, r ∈ EngineSpec.tags_of tagcol row) Engine.REQS))
    with (EngineSpec.matched tagcol row).
  rewrite (sorted_Permutation _ _ (iter_perm (EngineSpec.tags_of tagcol row))).
  assert (∀ s, EngineSpec.id_cell idcol row = Some s →
            for_each (Engine.bump (Py.strip s)) (EngineSpec.matched tagcol row)
                     (Engine.coverage st)
            = Ok (foldl (λ cov r, alter (EngineSpec.bump_entry (Py.strip s)) r cov)
                        (Engine.coverage st) (EngineSpec.matched tagcol row)))
    as Hbump.
  { intros s Hs. rewrite for_each_bump; [done|].
    intros r [Hr _]%elem_of_matched. by apply Hcov. }
  destruct (decide (EngineSpec.complete idcol tagcol evcol row)) as [[Hid Hev]|Hc].
  - destruct (EngineSpec.id_cell idcol row) as [s|] eqn:Hs; [|congruence].
    cbn [Engine.cell_strip]. rewrite bind_Ok, (Hbump s eq_refl), bind_Ok.
    assert (EngineSpec.qid_of idcol row = Py.strip s) as Hq.
    { unfold EngineSpec.qid_of. by rewrite Hs. }
    unfold EngineSpec.step, EngineSpec.gap_entry. rewrite Hq.
    destruct (decide ("EVIDENCE_REQUIRED" ∈ EngineSpec.tags_of tagcol row))
      as [Hm|Hm].
    + destruct (EngineSpec.ev_cell evcol row) as [e|] eqn:He;
        [|by destruct (Hev Hm)].
      cbn [Engine.cell_strip]. rewrite bind_Ok. unfold Py.truthy.
      destruct (decide (Py.strip e = "")) as [Hb|Hb].
      * rewrite bool_decide_eq_true_2 by done. cbn [negb]. rewrite bind_Ok.
        rewrite decide_True; [done|].
        split; [done|]. by rewrite He.
      * rewrite bool_decide_eq_false_2 by done. cbn [negb]. rewrite bind_Ok.
        rewrite decide_False; [by rewrite app_nil_r|].
        intros [_ Hbl]. by rewrite He in Hbl.
    + rewrite bind_Ok. rewrite decide_False; [by rewrite app_nil_r|].
      by intros [? _].
  - destruct (EngineSpec.id_cell idcol row) as [s|] eqn:Hs; [|done].
    cbn [Engine.cell_strip]. rewrite bind_Ok, (Hbump s eq_refl), bind_Ok.
    destruct (decide ("EVIDENCE_REQUIRED" ∈ EngineSpec.tags_of tagcol row))
      as [Hm|Hm].
    + destruct (EngineSpec.ev_cell evcol row) as [e|] eqn:He; [|done].
      destruct Hc. split; [by rewrite Hs|]. intros _. by rewrite He.
    + destruct Hc. split; [by rewrite Hs|]. by intros ?.
Qed.

Lemma covers_step idcol tagcol evcol row st :
  EngineSpec.covers (Engine.coverage st) →
  EngineSpec.covers (Engine.coverage (EngineSpec.step idcol tagcol evcol row st)).
Proof.
  intros Hcov r Hr. cbn [EngineSpec.step Engine.coverage].
  rewrite lookup_foldl_alter by apply NoDup_matched.
  apply fmap_is_Some. by apply Hcov.
Qed.

Lemma for_each_row_body `{SetIter} idcol tagcol evcol rows :
  ∀ st, EngineSpec.covers (Engine.coverage st) →
    for_each (Engine.row_body idcol tagcol evcol) rows st
    = if decide (Forall (EngineSpec.complete idcol tagcol evcol) rows)
      then Ok (foldl (λ st row, EngineSpec.step idcol tagcol evcol row st) st rows)
      else Raise "AttributeError".
Proof.
  induction rows as [|row rows IH]; intros st Hcov; cbn [for_each foldl].
  - by rewrite decide_True by constructor.
  - rewrite row_body_eq by done.
    destruct (decide (EngineSpec.complete idcol tagcol evcol row)) as [Hc|Hc].
    + rewrite bind_Ok, IH by by apply covers_step.
      destruct (decide (Forall _ rows)) as [Hr|Hr].
      * by rewrite decide_True by by constructor.
      * rewrite decide_False; [done|]. by intros [??]%Forall_cons.
    + rewrite decide_False; [done|]. by intros [??]%Forall_cons.
Qed.

Lemma extend_nil e : EngineSpec.extend [] e = e.
Proof.
  destruct e as [n l]. unfold EngineSpec.extend. simpl.
  by rewrite Nat.add_0_r, app_nil_r.
Qed.

Lemma extend_app l1 l2 e :
  EngineSpec.extend (l1 ++ l2) e = EngineSpec.extend l2 (EngineSpec.extend l1 e).
Proof.
  unfold EngineSpec.extend. simpl. rewrite length_app, app_assoc. f_equal. lia.
Qed.

Lemma extend_singleton q e : EngineSpec.extend [q] e = EngineSpec.bump_entry q e.
Proof. unfold EngineSpec.extend, EngineSpec.bump_entry. simpl. f_equal. lia. Qed.

Lemma ids_for_cons idcol tagcol row rows r :
  EngineSpec.ids_for idcol tagcol (row :: rows) r
  = (if decide (r ∈ EngineSpec.tags_of tagcol row)
     then [EngineSpec.qid_of idcol row] else [])
    ++ EngineSpec.ids_for idcol tagcol rows r.
Proof. unfold EngineSpec.ids_for. rewrite filter_cons. by case_decide. Qed.

Lemma gaps_cons idcol tagcol evcol row rows :
  EngineSpec.gaps idcol tagcol evcol (row :: rows)
  = (if decide (EngineSpec.is_gap tagcol evcol row)
     then [EngineSpec.gap_entry idcol tagcol row] else [])
    ++ EngineSpec.gaps idcol tagcol evcol rows.
Proof. unfold EngineSpec.gaps. rewrite filter_cons. by case_decide. Qed.

Lemma foldl_step_spec idcol tagcol evcol rows :
  ∀ st,
    let st' := foldl (λ st row, EngineSpec.step idcol tagcol evcol row st) st rows in
    Engine.total st' = Engine.total st + length rows
    ∧ Engine.missing_ev st'
      = Engine.missing_ev st ++ EngineSpec.gaps idcol tagcol evcol rows
    ∧ ∀ r, Engine.coverage st' !! r
           = (if decide (r ∈ Engine.REQS)
              then EngineSpec.extend (EngineSpec.ids_for idcol tagcol rows r)
              else id) <$> Engine.coverage st !! r.
Proof.
  induction rows as [|row rows IH]; intros st; cbn [foldl].
  - cbn zeta. split_and!.
    + simpl. lia.
    + by rewrite app_nil_r.
    + intros r. destruct (Engine.coverage st !! r) as [e|]; [|done].
      simpl. case_decide; [|done]. by rewrite extend_nil.
  - destruct (IH (EngineSpec.step idcol tagcol evcol row st)) as (Ht & Hm & Hc).
    cbn zeta. split_and!.
    + rewrite Ht. simpl. lia.
    + rewrite Hm, gaps_cons. cbn [EngineSpec.step Engine.missing_ev].
      by rewrite app_assoc.
    + intros r. rewrite Hc. cbn [EngineSpec.step Engine.coverage].
      rewrite lookup_foldl_alter by apply NoDup_matched.
      rewrite <- option_fmap_compose. apply option_fmap_ext. intros e.
      cbn [compose]. rewrite ids_for_cons.
      pose proof (elem_of_matched tagcol row r) as Hmt.
      repeat case_decide; try done; try naive_solver;
        rewrite ?extend_app, ?extend_singleton, ?extend_nil; try done;
        naive_solver.
Qed.

Lemma state_eq (a b : Engine.State) :
  Engine.coverage a = Engine.coverage b →
  Engine.missing_ev a = Engine.missing_ev b →
  Engine.total a = Engine.total b → a = b.
Proof. destruct a, b. simpl. congruence. Qed.

(** The loop of [engine_cli.main]: it raises exactly when some row lacks
    a cell that the loop trims, and otherwise ends in [final_state]. *)
Lemma aggregate_eq `{SetIter} idcol tagcol evcol rows :
  Engine.aggregate idcol tagcol evcol rows
  = if decide (Forall (EngineSpec.complete idcol tagcol evcol) rows)
    then Ok (EngineSpec.final_state idcol tagcol evcol rows)
    else Raise "AttributeError".
Proof.
  unfold Engine.aggregate.
  assert (EngineSpec.covers (Engine.coverage Engine.init)) as Hcov.
  { intros r Hr. cbn [Engine.init Engine.coverage].
    rewrite (lookup_tabulate (λ _, {| Engine.count := 0; Engine.ids := [] |})).
    rewrite decide_True by done. eauto. }
  rewrite for_each_row_body by done. case_decide; [|done]. f_equal.
  destruct (foldl_step_spec idcol tagcol evcol rows Engine.init) as (Ht & Hm & Hc).
  apply state_eq; [|done..].
  apply map_eq. intros r. rewrite Hc.
  cbn [Engine.init Engine.coverage EngineSpec.final_state].
  rewrite (lookup_tabulate (λ _, {| Engine.count := 0; Engine.ids := [] |})).
  rewrite (lookup_tabulate (EngineSpec.entry_for idcol tagcol rows)).
  by case_decide.
Qed.

(** ** Whole runs *)

Lemma collect_Ok {A B} (f : A → Res B) (g : A → B) (l : list A) :
  (∀ x, x ∈ l → f x = Ok (g x)) → Engine.collect f l = Ok (g <$> l).
Proof.
  induction l as [|x l IH]; intros Hf; cbn [Engine.collect]; [done|].
  rewrite Hf by left. rewrite bind_Ok, IH; [done|].
  intros y Hy. apply Hf. by right.
Qed.

Lemma lookup_final_state idcol tagcol evcol rows r :
  r ∈ Engine.REQS →
  Engine.coverage (EngineSpec.final_state idcol tagcol evcol rows) !! r
  = Some (EngineSpec.entry_for idcol tagcol rows r).
Proof.
  intros Hr. cbn [EngineSpec.final_state Engine.coverage].
  rewrite (lookup_tabulate (EngineSpec.entry_for idcol tagcol rows)).
  by rewrite decide_True.
Qed.

(** A run of [engine_cli.main], outcome and files written. *)
Lemma engine_run `{SetIter} OUTD (qcsv : option Engine.Table) :
  run (Engine.main OUTD qcsv)
  = match qcsv with
    | None => (Exit 2 "ERR: questions file not found", [])
    | Some t =>
        match Engine.idcol_of t, Engine.tagcol_of t with
        | Some idcol, Some tagcol =>
            if decide (Forall (EngineSpec.complete idcol tagcol (Engine.evcol_of t))
                              (Engine.rows t))
            then (Ok tt, EngineSpec.files idcol tagcol (Engine.evcol_of t) OUTD
                                          (Engine.rows t))
            else (Raise "AttributeError", [])
        | _, _ =>
            (Exit 3 "ERR: CSV must contain at least ID and TAGS columns (id/tags).",
             [])
        end
    end.
Proof.
  destruct qcsv as [t|]; [|done]. unfold Engine.main.
  destruct (Engine.idcol_of t) as [idcol|]; [|done].
  destruct (Engine.tagcol_of t) as [tagcol|]; [|done].
  unfold run, proc_bind, lift. rewrite aggregate_eq.
  case_decide; [|done].
  rewrite (collect_Ok _ (EngineSpec.table_row idcol tagcol (Engine.rows t)));
    last first.
  { intros r Hr. unfold Engine.cov_row. rewrite lookup_final_state by done.
    unfold EngineSpec.table_row, EngineSpec.entry_for. cbn [Engine.count Engine.ids].
    by destruct (EngineSpec.ids_for idcol tagcol (Engine.rows t) r). }
  rewrite (collect_Ok _ (λ r, (r, length (EngineSpec.ids_for idcol tagcol
                                             (Engine.rows t) r)))); last first.
  { intros r Hr. unfold Engine.count_of. by rewrite lookup_final_state by done. }
  reflexivity.
Qed.

Lemma cov_row_spec rows c :
  c ∈ Phase0.REQS →
  Phase0.cov_row (Phase0Spec.cov_spec rows) c = Phase0Spec.table_row rows c.
Proof.
  intros Hc. unfold Phase0.cov_row, Phase0Spec.table_row.
  by rewrite lookup_cov_spec, decide_True by done.
Qed.

(** A run of [phase0_generate_reports.main], outcome and files written. *)
Lemma phase0_run `{SetIter} (w : Phase0.World) :
  run (Phase0.main w)
  = match Phase0.questions w, Phase0.pdf w with
    | None, _ => (Exit 1 ("Missing " +:+ Phase0.QUESTIONS), [])
    | Some _, None => (Exit 1 ("Missing " +:+ Phase0.PDF), [])
    | Some qs, Some scan =>
        match scan with
        | Ok fields =>
            (Ok 0%Z, [Phase0Spec.coverage_file qs;
                      (Phase0.BINDING_OUT,
                       Phase0.BindingMap Phase0.PDF 1 fields)])
        | Exit st msg => (Exit st msg, [Phase0Spec.coverage_file qs])
        | Raise e => (Raise e, [Phase0Spec.coverage_file qs])
        end
    end.
Proof.
  unfold Phase0.main, Phase0.ensure, run, proc_bind.
  destruct (Phase0.questions w) as [qs|]; [|done].
  destruct (Phase0.pdf w) as [scan|]; [|done].
  cbn [proc_ret default lift]. rewrite coverage_from_rows_spec.
  unfold Phase0.write_coverage, write, id. cbn [app].
  assert (Phase0.cov_row (Phase0Spec.cov_spec qs) <$> Phase0.REQS
          = Phase0Spec.table_row qs <$> Phase0.REQS) as ->.
  { apply list_fmap_ext. intros _ c Hc%list_elem_of_lookup_2.
    by apply cov_row_spec. }
  by destruct scan.
Qed.

(** ** Records behind the ids of the ledger *)

Lemma elem_of_enumerate {A} (l : list A) start i x :
  (i, x) ∈ enumerate start l ↔ ∃ k, i = start + k ∧ l !! k = Some x.
Proof.
  revert start. induction l as [|y l IH]; intros start; cbn [enumerate].
  - split; [by intros ?%elem_of_nil|]. by intros (k & _ & ?).
  - rewrite elem_of_cons, IH. split.
    + intros [[= -> ->]|(k & -> & Hk)].
      * exists 0. split; [lia|done].
      * exists (S k). split; [lia|done].
    + intros ([|k] & -> & Hk); simpl in Hk.
      * left. simplify_eq. f_equal. lia.
      * right. exists k. split; [lia|done].
Qed.

Lemma elem_of_matching_ids rows c q :
  q ∈ Phase0Spec.matching_ids rows c
  ↔ ∃ i row, rows !! i = Some row
             ∧ q = Phase0.qid_of (Phase0Spec.id_field_of rows) (S i) row
             ∧ c ∈ Phase0Spec.row_codes (Phase0Spec.txt_field_of rows)
                                        (Phase0Spec.tag_fields_of rows) row.
Proof.
  unfold Phase0Spec.matching_ids, Phase0Spec.hits.
  rewrite list_elem_of_fmap. split.
  - intros ([i row] & -> & [Hc Hin]%list_elem_of_filter).
    apply elem_of_enumerate in Hin as (k & -> & Hk). eauto.
  - intros (i & row & Hrow & -> & Hc). exists (S i, row). split; [done|].
    apply list_elem_of_filter. split; [done|].
    apply elem_of_enumerate. exists i. split; [lia|done].
Qed.




(** * The claims *)

(** ** C8: order of the ids *)



(** A record that matches one code through two tag fields and through
    the text is listed once; a later record with the same id is not
    listed again. *)
Example matched_three_ways :
  Phase0Spec.matching_ids [row_both; row_q1; row_both] "CR1" = ["Q7"; "Q1"; "Q7"]
  ∧ Phase0Spec.ids_for [row_both; row_q1; row_both] "CR1" = ["Q7"; "Q1"]
  ∧ Phase0Spec.ids_for [row_both; row_q1; row_both] "A" = ["Q7"].
Proof. vm_compute. done. Qed.

(** ** C10: the ids are never empty *)



(** ** C1: no duplicate id under a code, and the count *)





(** ** C9: the output does not depend on the visiting order of sets *)

(** C9.  The only freedom a run has is the order in which the elements of
    a tag set are visited.  Whatever that order, on the same input the two
    programs return the same outcome and write the same files with the
    same content: the ledger, the coverage table, the gap table and the
    summary are functions of the input rows. *)
Theorem C9_output_is_a_function_of_the_input (I1 I2 : SetIter) :
  (∀ rows, @Phase0.coverage_from_rows I1 rows = @Phase0.coverage_from_rows I2 rows)
  ∧ (∀ w, run (@Phase0.main I1 w) = run (@Phase0.main I2 w))
  ∧ (∀ idcol tagcol evcol rows,
       @Engine.aggregate I1 idcol tagcol evcol rows
       = @Engine.aggregate I2 idcol tagcol evcol rows)
  ∧ (∀ OUTD qcsv,
       run (@Engine.main I1 OUTD qcsv) = run (@Engine.main I2 OUTD qcsv)).
Proof.
  split_and!.
  - intros rows. by rewrite !coverage_from_rows_spec.
  - intros w. by rewrite !phase0_run.
  - intros idcol tagcol evcol rows. by rewrite !aggregate_eq.
  - intros OUTD qcsv. by rewrite !engine_run.
Qed.

(** The two visiting orders used for illustration do differ. *)
Example visiting_orders_differ :
  @iter canonical_iter (Phase0.tokens_from (Some "CR1, CR2"))
  ≠ @iter reversed_iter (Phase0.tokens_from (Some "CR1, CR2")).
Proof. vm_compute. discriminate. Qed.

(** ** C4: the rows of the coverage table *)

Lemma phase0_table_requirements rows :
  Phase0.Requirement <$> (Phase0Spec.table_row rows <$> Phase0.REQS)
  = ["CR1"; "CR2"; "CR3"; "CR4"; "CR5"; "CR6"; "CR7"; "CR8"; "CR9"; "CR10";
     "A"; "B"; "C"; "D"; "E"; "F"; "G"].
Proof. reflexivity. Qed.

Lemma engine_table_requirements idcol tagcol rows :
  Engine.Requirement <$> (EngineSpec.table_row idcol tagcol rows <$> Engine.REQS)
  = ["CR1"; "CR2"; "CR3"; "CR4"; "CR5"; "CR6"; "CR7"; "CR8"; "CR9"; "CR10";
     "A"; "B"; "C"; "D"; "E"; "F"; "G"].
Proof. reflexivity. Qed.



(** Zero input rows, as the table reads. *)
Example empty_input_tables :
  (run (@Phase0.main canonical_iter
          {| Phase0.questions := Some []; Phase0.pdf := Some (Ok []) |})).2 !! 0
  = Some (Phase0.COVERAGE_OUT,
          Phase0.CoverageCsv
            ((λ c, {| Phase0.Requirement := c; Phase0.Covered := "N";
                      Phase0.Count := 0; Phase0.QuestionIDs := "";
                      Phase0.ProposedAddIfGap := "ADD_" +:+ c +:+ "_QUESTION" |})
               <$> Phase0.REQS))
  ∧ (run (@Engine.main canonical_iter "out" (Some table_empty))).2 !! 0
    = Some ("out/phase2_coverage.csv",
            Engine.CoverageCsv
              ((λ r, {| Engine.Requirement := r; Engine.Covered := "N";
                        Engine.Count := 0; Engine.QuestionIDs := "" |})
                 <$> Engine.REQS))
  ∧ (run (@Engine.main canonical_iter "out" (Some table_empty))).2 !! 1
    = Some ("out/phase2_missing_evidence.csv", Engine.GapsCsv []).
Proof. vm_compute. done. Qed.

(** ** C3: exit status and files written *)




(** ** C7: the evidence gate *)

(** The gate on rows that have their cells: the gap table lists, in input
    order, the rows that carry the marker and whose evidence is empty once
    trimmed (or that have no evidence column). *)
Lemma evidence_gate_on_complete_rows `{SetIter} idcol tagcol evcol rows :
  Forall (EngineSpec.complete idcol tagcol evcol) rows →
  ∃ st, Engine.aggregate idcol tagcol evcol rows = Ok st
        ∧ Engine.missing_ev st
          = EngineSpec.gap_entry idcol tagcol
              <$> filter (EngineSpec.is_gap tagcol evcol) rows.
Proof.
  intros Hrows. eexists. split; [by rewrite aggregate_eq, decide_True|done].
Qed.

(** C7 (the code at the failing input).  A record that carries the marker
    and has no evidence cell, as in a row shorter than the header, meets
    the condition of the gate, yet the run raises [AttributeError] when it
    trims the missing cell: no gap entry is emitted and no file is
    written.  The same record with an empty evidence cell is reported. *)
Theorem C7_absent_evidence_cell_aborts :
  EngineSpec.is_gap "tags" (Some "evidence") row_short
  ∧ run (@Engine.main canonical_iter "out" (Some table_short))
    = (Raise "AttributeError", [])
  ∧ (run (@Engine.main canonical_iter "out"
            (Some {| Engine.fieldnames := ["id"; "tags"; "evidence"];
                     Engine.rows := [row_q1] |}))).2 !! 1
    = Some ("out/phase2_missing_evidence.csv",
            Engine.GapsCsv [("Q1", "CR1,EVIDENCE_REQUIRED")]).
Proof.
  split_and!.
  - split; [|done]. apply (bool_decide_unpack _). vm_compute. reflexivity.
  - vm_compute. reflexivity.
  - vm_compute. reflexivity.
Qed.

(** ** C2: tag normalisation *)

Lemma re_split_run_equiv D s s' :
  delim_equiv D s s' →
  ∀ in_run, Py.re_split_run D in_run s = Py.re_split_run D in_run s'.
Proof.
  induction 1 as [|c s s' _ IH|c c' s s' Hc Hc' _ IH
                  |c c2 s s' Hc Hc2 _ IH|c' c2' s s' Hc' Hc2' _ IH];
    intros in_run.
  - done.
  - cbn [Py.re_split_run]. by rewrite !IH.
  - cbn [Py.re_split_run]. by rewrite Hc, Hc', IH.
  - rewrite <- IH. cbn [Py.re_split_run]. rewrite Hc, Hc2. by destruct in_run.
  - rewrite IH. cbn [Py.re_split_run]. rewrite Hc', Hc2'. by destruct in_run.
Qed.

Lemma delim_equiv_empty D s s' : delim_equiv D s s' → s = "" ↔ s' = "".
Proof. induction 1; naive_solver. Qed.

Lemma tokens_from_equiv s s' :
  delim_equiv Phase0.is_delim s s' →
  Phase0.tokens_from (Some s) = Phase0.tokens_from (Some s').
Proof.
  intros Heq. unfold Phase0.tokens_from, Py.re_split.
  rewrite (re_split_run_equiv _ _ _ Heq false).
  assert (Py.truthy s = Py.truthy s') as ->; [|done].
  unfold Py.truthy. f_equal. apply bool_decide_ext.
  by eapply delim_equiv_empty.
Qed.

Lemma replace_semicolon_same s s' :
  same_up_to comma_or_semicolon s s' →
  Py.replace ";" "," s = Py.replace ";" "," s'.
Proof.
  assert (∀ c, comma_or_semicolon c = true → ∀ r,
            (if bool_decide (c = ";"%char) then "," +:+ r else String c r)
            = String "," r) as Hsub.
  { intros c Hc r. unfold comma_or_semicolon in Hc.
    apply orb_true_iff in Hc as [Hc|Hc]; apply bool_decide_eq_true in Hc;
      subst c; reflexivity. }
  induction 1 as [|c s s' _ IH|c c' s s' Hc Hc' _ IH]; cbn [Py.replace].
  - done.
  - by rewrite IH.
  - by rewrite IH, !Hsub.
Qed.

Lemma same_up_to_empty D s s' : same_up_to D s s' → s = "" ↔ s' = "".
Proof. induction 1; naive_solver. Qed.

Lemma norm_tags_same s s' :
  same_up_to comma_or_semicolon s s' →
  Engine.norm_tags (Some s) = Engine.norm_tags (Some s').
Proof.
  intros Heq. unfold Engine.norm_tags.
  rewrite (replace_semicolon_same _ _ Heq).
  assert (Py.truthy s = Py.truthy s') as ->; [|done].
  unfold Py.truthy. f_equal. apply bool_decide_ext.
  by eapply same_up_to_empty.
Qed.

Lemma is_delim_spec c :
  Phase0.is_delim c = true
  ↔ c = ","%char ∨ c = "|"%char ∨ c = ";"%char ∨ c = "/"%char
    ∨ Py.isspace c = true.
Proof.
  unfold Phase0.is_delim. rewrite !orb_true_iff, !bool_decide_eq_true.
  naive_solver.
Qed.

(** C2 (as it fails).  [norm_tags] of [engine_cli] does not cut at a pipe:
    ["CR1|CR2"] is kept as one token. *)
Lemma C2_counterexample :
  Engine.norm_tags (Some "CR1|CR2") = {[ "CR1|CR2" ]}
  ∧ Engine.norm_tags (Some "CR1|CR2") ≠ {[ "CR1"; "CR2" ]}
  ∧ Engine.norm_tags (Some "CR1|CR2") ≠ Engine.norm_tags (Some "CR1;CR2").
Proof.
  assert (Engine.norm_tags (Some "CR1|CR2") = {[ "CR1|CR2" ]}) as Hpipe
    by (vm_compute; reflexivity).
  assert (Engine.norm_tags (Some "CR1;CR2") = {[ "CR1"; "CR2" ]}) as Hsemi
    by (vm_compute; reflexivity).
  split_and!; [done|..]; rewrite ?Hpipe, ?Hsemi; intros Heq;
    assert ("CR1" ∈ ({[ "CR1|CR2" ]} : gset string)) as Hin
      by (rewrite Heq; set_solver);
    by apply elem_of_singleton in Hin.
Qed.

(** C2 (amended).  [tokens_from] of [phase0] is delimiter-agnostic: comma,
    semicolon, pipe, slash and white space all cut, a run of them cuts
    once, so two strings that differ only in the delimiters used and in
    the length of the runs give the same set; ["CR1, CR2"], ["CR1;CR2"]
    and ["CR1|CR2"] all give {CR1, CR2}.  [norm_tags] of [engine_cli]
    cuts at comma and semicolon only, which are interchangeable; pipe and
    slash stay inside the token and inner spaces are deleted.  Both are
    total functions and give the empty set on [None] and on the empty
    string. *)
Theorem C2_tag_normalisation :
  (∀ s s', delim_equiv Phase0.is_delim s s' →
           Phase0.tokens_from (Some s) = Phase0.tokens_from (Some s'))
  ∧ (∀ c, Phase0.is_delim c = true
          ↔ c = ","%char ∨ c = "|"%char ∨ c = ";"%char ∨ c = "/"%char
            ∨ Py.isspace c = true)
  ∧ Phase0.tokens_from (Some "CR1, CR2") = {[ "CR1"; "CR2" ]}
  ∧ Phase0.tokens_from (Some "CR1;CR2") = {[ "CR1"; "CR2" ]}
  ∧ Phase0.tokens_from (Some "CR1|CR2") = {[ "CR1"; "CR2" ]}
  ∧ Phase0.tokens_from (Some "cr1/cr2	 cr1") = {[ "CR1"; "CR2" ]}
  ∧ Phase0.tokens_from None = ∅
  ∧ Phase0.tokens_from (Some "") = ∅
  ∧ (∀ s s', same_up_to comma_or_semicolon s s' →
             Engine.norm_tags (Some s) = Engine.norm_tags (Some s'))
  ∧ Engine.norm_tags (Some "CR1, CR2") = {[ "CR1"; "CR2" ]}
  ∧ Engine.norm_tags (Some "CR1;CR2") = {[ "CR1"; "CR2" ]}
  ∧ Engine.norm_tags (Some "CR1|CR2") = {[ "CR1|CR2" ]}
  ∧ Engine.norm_tags (Some "CR1/CR2") = {[ "CR1/CR2" ]}
  ∧ Engine.norm_tags (Some "cr 1 ;; CR2") = {[ "CR1"; "CR2" ]}
  ∧ Engine.norm_tags None = ∅
  ∧ Engine.norm_tags (Some "") = ∅.
Proof.
  split_and!;
    first [ apply tokens_from_equiv | apply is_delim_spec | apply norm_tags_same
          | vm_compute; reflexivity ].
Qed.

Lemma C2_witness :
  Phase0.tokens_from (Some "CR1, CR2") = Phase0.tokens_from (Some "CR1;CR2")
  ∧ Engine.norm_tags (Some "CR1,CR2") = Engine.norm_tags (Some "CR1;CR2").
Proof.
  destruct C2_tag_normalisation as (Htok & _ & _ & _ & _ & _ & _ & _ & Htags & _).
  split.
  - apply Htok.
    do 3 apply de_char.
    apply de_longer_l; [reflexivity..|].
    apply de_delim; [reflexivity..|].
    do 3 apply de_char. apply de_nil.
  - apply Htags.
    do 3 apply su_char.
    apply su_delim; [reflexivity..|].
    do 3 apply su_char. apply su_nil.
Defined.

(** ** C5: tag tokens that name a CR code *)












(** Spellings of a tag as [phase0] reads them. *)
Example norm_cr_examples :
  Phase0.norm_cr "CR01" = Some "CR1"
  ∧ Phase0.norm_cr "cr-3" = Some "CR3"
  ∧ Phase0.norm_cr "Cr_010" = Some "CR10"
  ∧ Phase0.norm_cr "CR0" = None
  ∧ Phase0.norm_cr "CR11" = None
  ∧ Phase0.norm_cr "CR" = None
  ∧ Phase0.norm_cr "A" = None
  ∧ Phase0Spec.ids_for [row_both] "CR1" = ["Q7"].
Proof. vm_compute. done. Qed.

(** ** C6: the pattern and the text fallback *)



























(** Letters in prose match nothing; the tag [b] and the mention [cr 7]
    do. *)
Example prose_letters_do_not_match :
  CR_RX.finditer "Plan A or G, see cr 7" = ["7"]
  ∧ Phase0Spec.ids_for [row_prose] "A" = []
  ∧ Phase0Spec.ids_for [row_prose] "G" = []
  ∧ Phase0Spec.ids_for [row_prose] "B" = ["Q9"]
  ∧ Phase0Spec.ids_for [row_prose] "CR7" = ["Q9"]
  ∧ Phase0Spec.ids_for [row_q2] "CR3" = ["Q2"]
  ∧ Phase0Spec.ids_for [row_q2] "CR10" = ["Q2"].
Proof. vm_compute. done. Qed.

(** The pattern on a few texts. *)
Example finditer_examples :
  CR_RX.finditer "See CR-03 and CR10 for details" = ["3"; "10"]
  ∧ CR_RX.finditer "cr_010, Cr 7; cR9" = ["10"; "7"; "9"]
  ∧ CR_RX.finditer "CR0 CR11 CR100 xCR1 CR1x _CR2 CR--3" = []
  ∧ CR_RX.finditer "CR1CR2 (CR2)" = ["2"].
Proof. vm_compute. done. Qed.

(** * Further properties of the code *)

(** ** [pick] *)

Lemma filter_none {A} (P : A → Prop) `{∀ x, Decision (P x)} (l : list A) :
  (∀ x, x ∈ l → ¬ P x) → filter P l = [].
Proof.
  induction l as [|x l IH]; intros Hnone; [done|].
  rewrite filter_cons_False by (apply Hnone; left).
  apply IH. intros y Hy. apply Hnone. by right.
Qed.

Lemma length_omap_le {A B} (f : A → option B) (l : list A) :
  length (omap f l) ≤ length l.
Proof.
  induction l as [|x l IH]; csimpl; [done|]. destruct (f x); simpl; lia.
Qed.

Lemma filter_unique_image {A B} `{EqDecision B} (f : A → B) (l : list A) (x : A) :
  NoDup (f <$> l) → x ∈ l → filter (λ y, f y = f x) l = [x].
Proof.
  induction l as [|y l IH]; intros Hnd Hx; [by apply elem_of_nil in Hx|].
  rewrite fmap_cons in Hnd. apply NoDup_cons in Hnd as [Hfresh Hnd].
  apply elem_of_cons in Hx as [->|Hx].
  - rewrite filter_cons_True by done. f_equal. apply filter_none.
    intros z Hz Heq. apply Hfresh. rewrite <- Heq.
    by apply list_elem_of_fmap_2.
  - rewrite filter_cons_False; [by apply IH|].
    intros Heq. apply Hfresh. rewrite Heq. by apply list_elem_of_fmap_2.
Qed.

Lemma lookup_lowered_snoc cols c k :
  Phase0Rest.lowered (cols ++ [c]) !! k
  = if decide (Py.lower c = k) then Some c else Phase0Rest.lowered cols !! k.
Proof.
  unfold Phase0Rest.lowered. rewrite foldl_app. cbn [foldl].
  by rewrite lookup_insert.
Qed.

Lemma lookup_lowered cols k :
  Phase0Rest.lowered cols !! k = last (filter (λ c, Py.lower c = k) cols).
Proof.
  induction cols as [|c cols IH] using rev_ind.
  - done.
  - rewrite lookup_lowered_snoc, filter_app, IH.
    rewrite filter_cons, filter_nil. case_decide.
    + by rewrite last_snoc.
    + by rewrite app_nil_r.
Qed.

Lemma pick_unfold cols cands :
  Phase0Rest.pick cols cands
  = omap (λ cand, last (filter (λ c, Py.lower c = cand) cols)) cands.
Proof.
  unfold Phase0Rest.pick. induction cands as [|cand cands IH]; csimpl; [done|].
  by rewrite IH, lookup_lowered.
Qed.

(** X1.  [pick] returns, in the order of the candidates, one column for
    each candidate that some column spells up to letter case: the last such
    column of the header.  Every column returned is a column of the header
    whose lower-cased name is a candidate, and when no two columns share a
    lower-cased name [pick] returns the same columns as the discovery of
    [coverage_from_rows], which orders them by header instead. *)
Theorem X1_pick_by_candidate (cols cands : list string) :
  Phase0Rest.pick cols cands
  = omap (λ cand, last (filter (λ c, Py.lower c = cand) cols)) cands
  ∧ (∀ c, c ∈ Phase0Rest.pick cols cands → c ∈ cols ∧ Py.lower c ∈ cands)
  ∧ length (Phase0Rest.pick cols cands) ≤ length cands
  ∧ (NoDup (Py.lower <$> cols) →
     ∀ c, c ∈ Phase0Rest.pick cols cands ↔ c ∈ Phase0.all_cols cands cols).
Proof.
  assert (∀ c, c ∈ Phase0Rest.pick cols cands → c ∈ cols ∧ Py.lower c ∈ cands)
    as Hin.
  { intros c. rewrite pick_unfold, list_elem_of_omap.
    intros (cand & Hcand & Hlast).
    apply last_Some_elem_of, list_elem_of_filter in Hlast as [<- ?]. done. }
  split_and!; [apply pick_unfold|done| |].
  - apply length_omap_le.
  - intros Hnd c. unfold Phase0.all_cols. rewrite list_elem_of_filter.
    split; [by intros [??]%Hin|]. intros [Hc Hcol].
    rewrite pick_unfold. apply list_elem_of_omap.
    exists (Py.lower c). split; [done|].
    by rewrite (filter_unique_image Py.lower cols c Hnd Hcol).
Qed.

Lemma X1_witness :
  "ID" ∈ Phase0Rest.pick ["Ref"; "Tags"; "ID"; "notes"] Phase0.ID_CANDS
  ↔ "ID" ∈ Phase0.all_cols Phase0.ID_CANDS ["Ref"; "Tags"; "ID"; "notes"].
Proof.
  apply (X1_pick_by_candidate ["Ref"; "Tags"; "ID"; "notes"] Phase0.ID_CANDS).
  apply (bool_decide_unpack _). vm_compute. reflexivity.
Defined.

(** [pick] follows the candidates, the discovery follows the header; on a
    header with two spellings of one name [pick] keeps the last. *)
Example pick_examples :
  Phase0Rest.pick ["Ref"; "Tags"; "ID"; "notes"] Phase0.ID_CANDS = ["ID"; "Ref"]
  ∧ Phase0.all_cols Phase0.ID_CANDS ["Ref"; "Tags"; "ID"; "notes"] = ["Ref"; "ID"]
  ∧ Phase0Rest.pick ["id"; "ID"; "Id"] Phase0.ID_CANDS = ["Id"]
  ∧ Phase0Rest.pick [] Phase0.ID_CANDS = [].
Proof. vm_compute. done. Qed.

(** ** [norm_cr], exactly *)







(** X4.  What [norm_cr] returns is one of the ten codes CR1..CR10, never
    a letter code, and is a fixed point: [norm_cr] maps it to itself. *)
Theorem X4_norm_cr_canonical (tok c : string) :
  Phase0.norm_cr tok = Some c →
  c ∈ take 10 Phase0.REQS ∧ (c ∉ Phase0.LETTERS) ∧ Phase0.norm_cr c = Some c.
Proof.
  intros (k & Hk & ->)%norm_cr_Some.
  assert (k = 1 ∨ k = 2 ∨ k = 3 ∨ k = 4 ∨ k = 5 ∨ k = 6 ∨ k = 7 ∨ k = 8
          ∨ k = 9 ∨ k = 10)%N as Hd by lia.
  destruct_or!; subst k; (split_and!; [compute_done|compute_done|reflexivity]).
Qed.

Lemma X4_witness :
  "CR10" ∈ take 10 Phase0.REQS ∧ ("CR10" ∉ Phase0.LETTERS)
  ∧ Phase0.norm_cr "CR10" = Some "CR10".
Proof. apply (X4_norm_cr_canonical "c r_0-10" "CR10"). vm_compute. reflexivity. Defined.

(** ** Tokens are normal forms *)

Lemma upper_char_idem c : Py.upper_char (Py.upper_char c) = Py.upper_char c.
Proof. ascii_cases c. Qed.

Lemma isspace_upper c : Py.isspace (Py.upper_char c) = Py.isspace c.
Proof. ascii_cases c. Qed.

Lemma is_delim_upper c : Phase0.is_delim (Py.upper_char c) = Phase0.is_delim c.
Proof. ascii_cases c. Qed.

Lemma plain_upper c : plain (Py.upper_char c) = plain c.
Proof. ascii_cases c. Qed.

Lemma space_upper c :
  bool_decide (Py.upper_char c = " "%char) = bool_decide (c = " "%char).
Proof. ascii_cases c. Qed.

Lemma upper_idem s : Py.upper (Py.upper s) = Py.upper s.
Proof.
  induction s as [|c s IH]; cbn [Py.upper]; [done|].
  by rewrite upper_char_idem, IH.
Qed.

Lemma upper_empty s : Py.upper s = "" ↔ s = "".
Proof. by destruct s. Qed.

Lemma all_chars_impl (P Q : ascii → bool) s :
  (∀ c, P c = true → Q c = true) → all_chars P s = true → all_chars Q s = true.
Proof.
  intros HPQ. induction s as [|c s IH]; cbn [all_chars]; [done|].
  intros [Hc Hs]%andb_true_iff. apply andb_true_iff. auto.
Qed.

Lemma all_chars_upper P s :
  (∀ c, P (Py.upper_char c) = P c) →
  all_chars P (Py.upper s) = all_chars P s.
Proof.
  intros HP. induction s as [|c s IH]; cbn [Py.upper all_chars]; [done|].
  by rewrite HP, IH.
Qed.

Lemma elem_of_push c pieces p :
  p ∈ Py.push c pieces →
  (∃ p0, p = String c p0 ∧ (p0 = "" ∨ p0 ∈ pieces)) ∨ p ∈ pieces.
Proof.
  destruct pieces as [|p0 ps]; cbn [Py.push].
  - intros ->%list_elem_of_singleton. left. exists "". auto.
  - intros [->|Hp]%elem_of_cons.
    + left. exists p0. split; [done|]. right. left.
    + right. by right.
Qed.

(** The pieces of [re.split] hold no character of the class. *)
Lemma re_split_run_pieces D in_run s p :
  p ∈ Py.re_split_run D in_run s → all_chars (λ c, negb (D c)) p = true.
Proof.
  revert in_run p. induction s as [|c s IH]; intros in_run p;
    cbn [Py.re_split_run].
  - by intros ->%list_elem_of_singleton.
  - destruct (D c) eqn:Hc.
    + destruct in_run; [apply IH|].
      intros [->|Hp]%elem_of_cons; [done|by eapply IH].
    + intros [(p0 & -> & [->|Hp0])|Hp]%elem_of_push.
      * cbn [all_chars]. by rewrite Hc.
      * cbn [all_chars]. rewrite Hc. by eapply IH.
      * by eapply IH.
Qed.

Lemma re_split_run_plain D s :
  all_chars (λ c, negb (D c)) s = true → Py.re_split_run D false s = [s].
Proof.
  induction s as [|c s IH]; cbn [all_chars Py.re_split_run]; [done|].
  intros [Hc Hs]%andb_true_iff. apply negb_true_iff in Hc.
  by rewrite Hc, IH.
Qed.

Lemma lstrip_plain s :
  all_chars (λ c, negb (Py.isspace c)) s = true → Py.lstrip s = s.
Proof.
  destruct s as [|c s]; cbn [all_chars Py.lstrip]; [done|].
  intros [Hc _]%andb_true_iff. apply negb_true_iff in Hc. by rewrite Hc.
Qed.

Lemma rstrip_plain s :
  all_chars (λ c, negb (Py.isspace c)) s = true → Py.rstrip s = s.
Proof.
  induction s as [|c s IH]; cbn [all_chars Py.rstrip]; [done|].
  intros [Hc Hs]%andb_true_iff. apply negb_true_iff in Hc.
  rewrite IH by done. rewrite Hc. by destruct s.
Qed.

Lemma strip_plain s :
  all_chars (λ c, negb (Py.isspace c)) s = true → Py.strip s = s.
Proof. intros Hs. unfold Py.strip. by rewrite lstrip_plain, rstrip_plain. Qed.

Lemma not_delim_not_space c : not_delim c = true → negb (Py.isspace c) = true.
Proof.
  unfold not_delim, Phase0.is_delim. rewrite !negb_true_iff, !orb_false_iff.
  naive_solver.
Qed.

Lemma truthy_spec s : Py.truthy s = true ↔ s ≠ "".
Proof. unfold Py.truthy. rewrite negb_true_iff, bool_decide_eq_false. done. Qed.

Lemma list_to_set_singleton (t : string) : (list_to_set [t] : gset string) = {[ t ]}.
Proof. cbn [list_to_set]. by rewrite (right_id_L ∅ (∪)). Qed.

(** [tokens_from] on a string that is already a token. *)
Lemma tokens_from_token t :
  t ≠ "" → Py.upper t = t → all_chars not_delim t = true →
  Phase0.tokens_from (Some t) = {[ t ]}.
Proof.
  intros Hne Hup Hplain. unfold Phase0.tokens_from, Py.re_split.
  rewrite (proj2 (truthy_spec t) Hne), (re_split_run_plain _ _ Hplain).
  assert (Py.strip t = t) as Hstrip.
  { apply strip_plain. eapply all_chars_impl; [|done]. apply not_delim_not_space. }
  rewrite filter_cons_True by (rewrite Hstrip; by apply truthy_spec).
  rewrite filter_nil. cbn [fmap list_fmap]. rewrite Hstrip, Hup.
  apply list_to_set_singleton.
Qed.

(** X2.  Every token that [tokens_from] returns is in normal form: it is
    non-empty, upper-case, free of delimiters and of surrounding white
    space, and [tokens_from] maps it to itself alone. *)
Theorem X2_tokens_are_normal_forms (val : Cell) (t : string) :
  t ∈ Phase0.tokens_from val →
  t ≠ ""
  ∧ Py.upper t = t
  ∧ Py.strip t = t
  ∧ all_chars not_delim t = true
  ∧ Phase0.tokens_from (Some t) = {[ t ]}.
Proof.
  unfold Phase0.tokens_from. destruct val as [s|]; [|by intros ?%elem_of_empty].
  destruct (Py.truthy s); [|by intros ?%elem_of_empty].
  rewrite elem_of_list_to_set, list_elem_of_fmap.
  intros (p & -> & [Hp Hin]%list_elem_of_filter).
  apply re_split_run_pieces in Hin.
  assert (all_chars not_delim p = true) as Hplain by done.
  assert (Py.strip p = p) as Hstrip.
  { apply strip_plain. eapply all_chars_impl; [|done]. apply not_delim_not_space. }
  rewrite Hstrip in *. apply truthy_spec in Hp.
  assert (all_chars not_delim (Py.upper p) = true) as Hup.
  { rewrite all_chars_upper; [done|]. intros c. unfold not_delim.
    by rewrite is_delim_upper. }
  assert (Py.upper p ≠ "") as Hne by by rewrite upper_empty.
  split_and!; [done|apply upper_idem| |done|].
  - apply strip_plain. eapply all_chars_impl; [|done]. apply not_delim_not_space.
  - apply tokens_from_token; [done|apply upper_idem|done].
Qed.

Lemma X2_witness :
  "CR-01" ≠ ""
  ∧ Py.upper "CR-01" = "CR-01"
  ∧ Py.strip "CR-01" = "CR-01"
  ∧ all_chars not_delim "CR-01" = true
  ∧ Phase0.tokens_from (Some "CR-01") = {[ "CR-01" ]}.
Proof.
  apply (X2_tokens_are_normal_forms (Some " a|cr-01 ;b") "CR-01").
  apply (bool_decide_unpack _). vm_compute. reflexivity.
Defined.

(** ** [norm_tags]: normal forms and the tags column read back *)

Lemma all_chars_app P s1 s2 :
  all_chars P (s1 +:+ s2) = all_chars P s1 && all_chars P s2.
Proof.
  induction s1 as [|c s1 IH]; [done|].
  change (String c s1 +:+ s2) with (String c (s1 +:+ s2)).
  cbn [all_chars]. by rewrite IH, andb_assoc.
Qed.

Lemma split_pieces P sep s p :
  p ∈ Py.split sep s →
  all_chars (λ c, negb (bool_decide (c = sep))) p = true
  ∧ (all_chars P s = true → all_chars P p = true).
Proof.
  revert p. induction s as [|c s IH]; intros p; cbn [Py.split].
  - by intros ->%list_elem_of_singleton.
  - cbn [all_chars]. case_bool_decide as Hc.
    + intros [->|Hp]%elem_of_cons; [done|].
      destruct (IH p Hp) as [? Hs]. split; [done|].
      intros [_ ?]%andb_true_iff. auto.
    + intros [(p0 & -> & [->|Hp0])|Hp]%elem_of_push.
      * cbn [all_chars]. rewrite bool_decide_eq_false_2 by done.
        split; [done|]. intros [-> _]%andb_true_iff. done.
      * destruct (IH p0 Hp0) as [Hsep Hs]. cbn [all_chars].
        rewrite bool_decide_eq_false_2 by done. split; [done|].
        intros [-> ?]%andb_true_iff. auto.
      * destruct (IH p Hp) as [? Hs]. split; [done|].
        intros [_ ?]%andb_true_iff. auto.
Qed.

Lemma split_plain sep s :
  all_chars (λ c, negb (bool_decide (c = sep))) s = true → Py.split sep s = [s].
Proof.
  induction s as [|c s IH]; cbn [all_chars Py.split]; [done|].
  intros [Hc Hs]%andb_true_iff. apply negb_true_iff in Hc.
  by rewrite Hc, IH.
Qed.

Lemma split_app_sep sep x rest :
  all_chars (λ c, negb (bool_decide (c = sep))) x = true →
  Py.split sep (x +:+ String sep rest) = x :: Py.split sep rest.
Proof.
  induction x as [|c x IH]; intros Hx.
  - change ("" +:+ String sep rest) with (String sep rest).
    cbn [Py.split]. by rewrite bool_decide_eq_true_2.
  - change (String c x +:+ String sep rest) with (String c (x +:+ String sep rest)).
    cbn [all_chars Py.split] in *. apply andb_true_iff in Hx as [Hc Hx].
    apply negb_true_iff in Hc. by rewrite Hc, IH.
Qed.

(** [sep.join] undone by [split]. *)
Lemma split_join sep l :
  l ≠ [] →
  Forall (λ x, all_chars (λ c, negb (bool_decide (c = sep))) x = true) l →
  Py.split sep (Py.join (String sep "") l) = l.
Proof.
  intros Hne Hl. induction Hl as [|x l Hx Hl IH]; [done|].
  destruct l as [|y l].
  - cbn [Py.join]. by apply split_plain.
  - change (Py.join (String sep "") (x :: y :: l))
      with (x +:+ String sep (Py.join (String sep "") (y :: l))).
    rewrite split_app_sep by done. by rewrite IH.
Qed.

Lemma replace_absent old new s :
  all_chars (λ c, negb (bool_decide (c = old))) s = true →
  Py.replace old new s = s.
Proof.
  induction s as [|c s IH]; cbn [all_chars Py.replace]; [done|].
  intros [Hc Hs]%andb_true_iff. apply negb_true_iff in Hc.
  by rewrite Hc, IH.
Qed.

Lemma replace_semicolon_gone s :
  all_chars (λ c, negb (bool_decide (c = ";"%char))) (Py.replace ";" "," s) = true.
Proof.
  induction s as [|c s IH]; cbn [Py.replace]; [done|].
  case_bool_decide as Hc.
  - change ("," +:+ ?r) with (String "," r). cbn [all_chars]. by rewrite IH.
  - cbn [all_chars]. by rewrite bool_decide_eq_false_2, IH.
Qed.

(** Deleting the spaces. *)
Lemma all_chars_delete_space P s :
  all_chars P s = true → all_chars P (Py.replace " " "" s) = true.
Proof.
  induction s as [|c s IH]; cbn [all_chars Py.replace]; [done|].
  intros [Hc Hs]%andb_true_iff. case_bool_decide.
  - change ("" +:+ ?r) with r. auto.
  - cbn [all_chars]. rewrite Hc. auto.
Qed.

Lemma delete_space_gone s :
  all_chars (λ c, negb (bool_decide (c = " "%char))) (Py.replace " " "" s) = true.
Proof.
  induction s as [|c s IH]; cbn [Py.replace]; [done|].
  case_bool_decide as Hc.
  - by change ("" +:+ ?r) with r.
  - cbn [all_chars]. by rewrite bool_decide_eq_false_2, IH.
Qed.

Lemma upper_delete_space s :
  Py.upper (Py.replace " " "" s) = Py.replace " " "" (Py.upper s).
Proof.
  induction s as [|c s IH]; cbn [Py.upper Py.replace]; [done|].
  rewrite space_upper. case_bool_decide.
  - by change ("" +:+ ?r) with r.
  - cbn [Py.upper]. by rewrite IH.
Qed.

(** Substrings kept by [strip]. *)
Lemma all_chars_lstrip P s :
  all_chars P s = true → all_chars P (Py.lstrip s) = true.
Proof.
  induction s as [|c s IH]; cbn [all_chars Py.lstrip]; [done|].
  intros [Hc Hs]%andb_true_iff. destruct (Py.isspace c); [auto|].
  cbn [all_chars]. by rewrite Hc, Hs.
Qed.

Lemma all_chars_rstrip P s :
  all_chars P s = true → all_chars P (Py.rstrip s) = true.
Proof.
  induction s as [|c s IH]; cbn [all_chars Py.rstrip]; [done|].
  intros [Hc Hs]%andb_true_iff. specialize (IH Hs).
  destruct (Py.rstrip s) as [|c' r].
  - destruct (Py.isspace c); [done|]. cbn [all_chars]. by rewrite Hc.
  - cbn [all_chars] in *. by rewrite Hc.
Qed.

Lemma all_chars_strip P s :
  all_chars P s = true → all_chars P (Py.strip s) = true.
Proof. intros. by apply all_chars_rstrip, all_chars_lstrip. Qed.

Lemma head_ok_lstrip s : head_ok (Py.lstrip s).
Proof.
  induction s as [|c s IH]; cbn [Py.lstrip]; [done|].
  by destruct (Py.isspace c) eqn:Hc.
Qed.

Lemma lstrip_head_ok s : head_ok s → Py.lstrip s = s.
Proof. destruct s as [|c s]; cbn [head_ok Py.lstrip]; [done|]. by intros ->. Qed.

Lemma head_ok_rstrip s : head_ok s → head_ok (Py.rstrip s).
Proof.
  destruct s as [|c s]; cbn [head_ok Py.rstrip]; [done|]. intros Hc.
  destruct (Py.rstrip s); [by rewrite Hc|done].
Qed.

Lemma rstrip_idem s : Py.rstrip (Py.rstrip s) = Py.rstrip s.
Proof.
  induction s as [|c s IH]; cbn [Py.rstrip]; [done|].
  destruct (Py.rstrip s) as [|c' r] eqn:Hr.
  - destruct (Py.isspace c) eqn:Hc; [done|]. cbn [Py.rstrip]. by rewrite Hc.
  - cbn [Py.rstrip] in *. destruct (Py.rstrip r) as [|c2 r2] eqn:Hr2.
    + destruct (Py.isspace c') eqn:Hc'; [done|]. by rewrite IH.
    + by rewrite IH.
Qed.

Lemma strip_fixed s : head_ok s → Py.rstrip s = s → Py.strip s = s.
Proof. intros Hh Hr. unfold Py.strip. by rewrite lstrip_head_ok. Qed.

Lemma strip_fixed_inv s : Py.strip s = s → head_ok s ∧ Py.rstrip s = s.
Proof.
  unfold Py.strip. intros Hs. split.
  - rewrite <- Hs. apply head_ok_rstrip, head_ok_lstrip.
  - rewrite <- Hs at 1. by rewrite rstrip_idem.
Qed.

Lemma strip_idem s : Py.strip (Py.strip s) = Py.strip s.
Proof.
  apply strip_fixed.
  - apply head_ok_rstrip, head_ok_lstrip.
  - unfold Py.strip. apply rstrip_idem.
Qed.

Lemma rstrip_upper s : Py.rstrip (Py.upper s) = Py.upper (Py.rstrip s).
Proof.
  induction s as [|c s IH]; cbn [Py.upper Py.rstrip]; [done|].
  rewrite IH, isspace_upper.
  destruct (Py.rstrip s); cbn [Py.upper]; [|done]. by destruct (Py.isspace c).
Qed.

Lemma head_ok_upper s : head_ok s → head_ok (Py.upper s).
Proof. destruct s as [|c s]; cbn [head_ok Py.upper]; [done|]. by rewrite isspace_upper. Qed.

Lemma space_is_space c : bool_decide (c = " "%char) = true → Py.isspace c = true.
Proof. by intros ->%bool_decide_eq_true. Qed.

Lemma head_ok_delete_space s : head_ok s → head_ok (Py.replace " " "" s).
Proof.
  destruct s as [|c s]; cbn [head_ok Py.replace]; [done|]. intros Hc.
  case_bool_decide as Hsp; [|done]. subst c. done.
Qed.

Lemma rstrip_delete_space s :
  Py.rstrip s = s →
  Py.rstrip (Py.replace " " "" s) = Py.replace " " "" s
  ∧ (s ≠ "" → Py.replace " " "" s ≠ "").
Proof.
  induction s as [|c s IH]; cbn [Py.rstrip Py.replace]; [done|].
  destruct (Py.rstrip s) as [|c' r] eqn:Hr.
  - destruct (Py.isspace c) eqn:Hc; [intros [=]|]. intros [= <-].
    cbn [Py.replace]. case_bool_decide as Hsp; [subst c; vm_compute in Hc; discriminate|].
    cbn [Py.rstrip]. by rewrite Hc.
  - intros [= Hs]. rewrite <- Hs in IH. destruct (IH eq_refl) as [IH1 IH2].
    rewrite <- Hs in *. clear Hs.
    case_bool_decide as Hsp.
    + change ("" +:+ ?x) with x. split; [done|]. intros _. by apply IH2.
    + split; [|done]. cbn [Py.rstrip]. rewrite IH1.
      destruct (Py.replace " " "" (String c' r)) eqn:Hrs; [|done].
      by destruct IH2.
Qed.

Lemma engine_token_normal x :
  let t := engine_token x in
  Py.upper t = t ∧ Py.strip t = t
  ∧ all_chars (λ c, negb (bool_decide (c = " "%char))) t = true.
Proof.
  unfold engine_token. split_and!.
  - by rewrite upper_delete_space, upper_idem.
  - destruct (strip_fixed_inv _ (strip_idem x)) as [Hh Hr].
    apply strip_fixed.
    + by apply head_ok_delete_space, head_ok_upper.
    + apply rstrip_delete_space. by rewrite rstrip_upper, Hr.
  - apply delete_space_gone.
Qed.

Lemma engine_token_fixed t :
  Py.upper t = t → Py.strip t = t →
  all_chars (λ c, negb (bool_decide (c = " "%char))) t = true →
  engine_token t = t.
Proof.
  intros Hup Hst Hsp. unfold engine_token.
  by rewrite Hst, Hup, replace_absent.
Qed.

Lemma plain_spec c :
  plain c = true
  ↔ negb (bool_decide (c = ","%char)) = true
    ∧ negb (bool_decide (c = ";"%char)) = true
    ∧ negb (bool_decide (c = " "%char)) = true.
Proof.
  unfold plain. rewrite !negb_true_iff, !orb_false_iff. naive_solver.
Qed.

Lemma all_chars_and P Q R s :
  (∀ c, R c = true ↔ P c = true ∧ Q c = true) →
  all_chars R s = true ↔ all_chars P s = true ∧ all_chars Q s = true.
Proof.
  intros HR. induction s as [|c s IH]; cbn [all_chars]; [done|].
  rewrite !andb_true_iff, IH, HR. naive_solver.
Qed.

(** The tokens of [norm_tags]. *)
Lemma norm_tags_token val t :
  t ∈ Engine.norm_tags val →
  t ≠ "" ∧ Py.upper t = t ∧ Py.strip t = t ∧ all_chars plain t = true.
Proof.
  unfold Engine.norm_tags. destruct val as [s|]; [|by intros ?%elem_of_empty].
  destruct (Py.truthy s); [|by intros ?%elem_of_empty].
  rewrite elem_of_list_to_set, list_elem_of_filter, list_elem_of_fmap.
  intros [Hne%truthy_spec (x & -> & Hx)].
  fold (engine_token x) in *.
  destruct (engine_token_normal x) as (Hup & Hst & Hsp).
  split_and!; [done..|].
  destruct (split_pieces (λ c, negb (bool_decide (c = ";"%char))) _ _ _ Hx)
    as [Hcomma Hsemi].
  specialize (Hsemi (replace_semicolon_gone s)).
  assert (∀ P, (∀ c, P (Py.upper_char c) = P c) → all_chars P x = true →
               all_chars P (engine_token x) = true) as Hkeep.
  { intros P HP HPx. unfold engine_token.
    apply all_chars_delete_space. rewrite all_chars_upper by done.
    by apply all_chars_strip. }
  apply (all_chars_and (λ c, negb (bool_decide (c = ","%char)))
           (λ c, negb (bool_decide (c = ";"%char))
                 && negb (bool_decide (c = " "%char)))).
  { intros c. rewrite plain_spec, andb_true_iff. naive_solver. }
  split.
  - apply Hkeep; [|done]. intros c. ascii_cases c.
  - apply (all_chars_and (λ c, negb (bool_decide (c = ";"%char)))
             (λ c, negb (bool_decide (c = " "%char)))).
    { intros c. by rewrite andb_true_iff. }
    split; [|done]. apply Hkeep; [|done]. intros c. ascii_cases c.
Qed.

Lemma join_cons_nonempty sep x l : x ≠ "" → Py.join sep (x :: l) ≠ "".
Proof. destruct x as [|c x]; [done|]. intros _. by destruct l. Qed.

Lemma all_chars_join P sep l :
  all_chars P sep = true →
  Forall (λ x, all_chars P x = true) l →
  all_chars P (Py.join sep l) = true.
Proof.
  intros Hsep. induction 1 as [|x l Hx Hl IH]; [done|].
  destruct l as [|y l]; [done|].
  change (Py.join sep (x :: y :: l)) with (x +:+ sep +:+ Py.join sep (y :: l)).
  by rewrite !all_chars_app, Hx, Hsep, IH.
Qed.

Lemma fmap_fixed {A} (f : A → A) (l : list A) :
  Forall (λ x, f x = x) l → f <$> l = l.
Proof. induction 1 as [|x l Hx _ IH]; csimpl; [done|]. by rewrite Hx, IH. Qed.

(** [norm_tags] reads back a comma-joined list of its own tokens. *)
Lemma norm_tags_join (l : list string) :
  Forall (λ t, t ≠ "" ∧ Py.upper t = t ∧ Py.strip t = t
               ∧ all_chars plain t = true) l →
  Engine.norm_tags (Some (Py.join "," l)) = list_to_set l.
Proof.
  intros Hl. destruct l as [|x l]; [done|].
  assert (∀ P : ascii → bool,
            (∀ c, plain c = true → P c = true) →
            Forall (λ t, all_chars P t = true) (x :: l)) as Hchars.
  { intros P HP. eapply Forall_impl; [done|]. intros t (_ & _ & _ & Ht).
    by eapply all_chars_impl. }
  unfold Engine.norm_tags.
  rewrite (proj2 (truthy_spec _)); last first.
  { apply join_cons_nonempty. by apply Forall_cons in Hl as [(? & _) _]. }
  rewrite replace_absent; last first.
  { apply all_chars_join; [done|]. apply Hchars. intros c Hc%plain_spec. tauto. }
  rewrite split_join; [|done|]; last first.
  { apply Hchars. intros c Hc%plain_spec. tauto. }
  fold engine_token. rewrite (fmap_fixed engine_token); last first.
  { eapply Forall_impl; [done|]. intros t (_ & Hup & Hst & Ht).
    apply engine_token_fixed; [done..|].
    eapply all_chars_impl; [|done]. intros c Hc%plain_spec. tauto. }
  rewrite filter_all; [done|].
  intros t Ht. apply truthy_spec.
  by apply (proj1 (Forall_forall _ _) Hl t Ht).
Qed.

(** X5.  The tokens of [norm_tags] are in normal form (non-empty,
    upper-case, trimmed, free of commas, semicolons and spaces), and the
    [tags] cell that the gap table holds for a record, the sorted tokens
    joined by commas, is read back by [norm_tags] as the tag set of the
    record, whatever the order in which the set was visited. *)
Theorem X5_tags_column_reads_back `{SetIter} (val : Cell) :
  (∀ t, t ∈ Engine.norm_tags val →
        t ≠ "" ∧ Py.upper t = t ∧ Py.strip t = t ∧ all_chars plain t = true
        ∧ Engine.norm_tags (Some t) = {[ t ]})
  ∧ Engine.norm_tags
      (Some (Py.join "," (Py.sorted (iter (Engine.norm_tags val)))))
    = Engine.norm_tags val.
Proof.
  split.
  - intros t Ht. pose proof (norm_tags_token _ _ Ht) as Hnf.
    destruct Hnf as (? & ? & ? & ?). split_and!; [done..|].
    rewrite <- list_to_set_singleton.
    apply (norm_tags_join [t]). by repeat constructor.
  - rewrite norm_tags_join.
    + apply set_eq. intros t.
      by rewrite elem_of_list_to_set, elem_of_sorted, iter_perm, elem_of_elements.
    + apply Forall_forall. intros t Ht.
      rewrite elem_of_sorted, iter_perm, elem_of_elements in Ht.
      by apply norm_tags_token in Ht.
Qed.

Lemma X5_witness :
  "EVIDENCE_REQUIRED" ≠ ""
  ∧ Py.upper "EVIDENCE_REQUIRED" = "EVIDENCE_REQUIRED"
  ∧ Py.strip "EVIDENCE_REQUIRED" = "EVIDENCE_REQUIRED"
  ∧ all_chars plain "EVIDENCE_REQUIRED" = true
  ∧ Engine.norm_tags (Some "EVIDENCE_REQUIRED") = {[ "EVIDENCE_REQUIRED" ]}.
Proof.
  destruct (@X5_tags_column_reads_back canonical_iter
              (Some "cr1, evidence_required")) as [Htok _].
  apply Htok. apply (bool_decide_unpack _). vm_compute. reflexivity.
Defined.

(** The [tags] cell of the sample gap entry, read back. *)
Example tags_cell_read_back :
  EngineSpec.gap_entry "id" "tags" row_q1 = ("Q1", "CR1,EVIDENCE_REQUIRED")
  ∧ Engine.norm_tags (Some "CR1,EVIDENCE_REQUIRED")
    = EngineSpec.tags_of "tags" row_q1.
Proof. split; vm_compute; reflexivity. Qed.

(** ** The ledger as rows are added, and the columns it reads *)















Lemma keys_set_cell k v row : keys (set_cell k v row) = keys row.
Proof.
  unfold keys. induction row as [|[k0 v0] row IH]; [done|].
  cbn [set_cell]. case_decide; csimpl; [done|]. by rewrite IH.
Qed.


(** ** More on the loop and the files of [engine_cli] *)

Lemma aggregate_Ok `{SetIter} idcol tagcol evcol rows st :
  Engine.aggregate idcol tagcol evcol rows = Ok st
  ↔ Forall (EngineSpec.complete idcol tagcol evcol) rows
    ∧ st = EngineSpec.final_state idcol tagcol evcol rows.
Proof.
  rewrite aggregate_eq. case_decide; split; try done.
  - by intros [= <-].
  - by intros [_ ->].
  - by intros [? _].
Qed.

Lemma ids_for_app_engine idcol tagcol rows1 rows2 r :
  EngineSpec.ids_for idcol tagcol (rows1 ++ rows2) r
  = EngineSpec.ids_for idcol tagcol rows1 r
    ++ EngineSpec.ids_for idcol tagcol rows2 r.
Proof. unfold EngineSpec.ids_for. by rewrite filter_app, fmap_app. Qed.

Lemma gaps_app idcol tagcol evcol rows1 rows2 :
  EngineSpec.gaps idcol tagcol evcol (rows1 ++ rows2)
  = EngineSpec.gaps idcol tagcol evcol rows1
    ++ EngineSpec.gaps idcol tagcol evcol rows2.
Proof. unfold EngineSpec.gaps. by rewrite filter_app, fmap_app. Qed.

(** X8.  The aggregation of [engine_cli] distributes over concatenation
    of the input: the loop completes on [rows1 ++ rows2] exactly when it
    completes on both parts, and then the totals add up, the gap lists are
    concatenated, and under every code the counts add up and the id lists
    are concatenated. *)
Theorem X8_aggregation_of_concatenated_input `{SetIter}
  (idcol tagcol : string) (evcol : option string) (rows1 rows2 : list Row) :
  (is_Ok (Engine.aggregate idcol tagcol evcol (rows1 ++ rows2))
   ↔ is_Ok (Engine.aggregate idcol tagcol evcol rows1)
     ∧ is_Ok (Engine.aggregate idcol tagcol evcol rows2))
  ∧ ∀ st1 st2,
      Engine.aggregate idcol tagcol evcol rows1 = Ok st1 →
      Engine.aggregate idcol tagcol evcol rows2 = Ok st2 →
      ∃ st,
        Engine.aggregate idcol tagcol evcol (rows1 ++ rows2) = Ok st
        ∧ Engine.total st = Engine.total st1 + Engine.total st2
        ∧ Engine.missing_ev st = Engine.missing_ev st1 ++ Engine.missing_ev st2
        ∧ ∀ r, r ∈ Engine.REQS →
            ∃ e e1 e2,
              Engine.coverage st !! r = Some e
              ∧ Engine.coverage st1 !! r = Some e1
              ∧ Engine.coverage st2 !! r = Some e2
              ∧ Engine.count e = Engine.count e1 + Engine.count e2
              ∧ Engine.ids e = Engine.ids e1 ++ Engine.ids e2.
Proof.
  split.
  - unfold is_Ok. split.
    + intros [st [Hall _]%aggregate_Ok]. apply Forall_app in Hall as [H1 H2].
      split; eexists; apply aggregate_Ok; eauto.
    + intros [[st1 [H1 _]%aggregate_Ok] [st2 [H2 _]%aggregate_Ok]].
      eexists. apply aggregate_Ok. split; [|done]. by apply Forall_app.
  - intros st1 st2 [H1 ->]%aggregate_Ok [H2 ->]%aggregate_Ok.
    exists (EngineSpec.final_state idcol tagcol evcol (rows1 ++ rows2)).
    split_and!.
    + apply aggregate_Ok. split; [|done]. by apply Forall_app.
    + cbn [EngineSpec.final_state Engine.total]. by rewrite length_app.
    + cbn [EngineSpec.final_state Engine.missing_ev]. apply gaps_app.
    + intros r Hr. eexists _, _, _. rewrite !lookup_final_state by done.
      split_and!; [done..| |];
        cbn [EngineSpec.entry_for Engine.count Engine.ids];
        rewrite ids_for_app_engine; [by rewrite length_app|done].
Qed.

Lemma X8_witness :
  ∃ st,
    @Engine.aggregate canonical_iter "id" "tags" (Some "evidence")
      ([row_q1] ++ [row_padded; row_q1]) = Ok st
    ∧ Engine.total st = 1 + 2
    ∧ Engine.missing_ev st
      = [("Q1", "CR1,EVIDENCE_REQUIRED")] ++ [("Q1", "CR1,EVIDENCE_REQUIRED")]
    ∧ ∀ r, r ∈ Engine.REQS →
        ∃ e e1 e2,
          Engine.coverage st !! r = Some e
          ∧ Engine.coverage
              (EngineSpec.final_state "id" "tags" (Some "evidence") [row_q1]) !! r
            = Some e1
          ∧ Engine.coverage
              (EngineSpec.final_state "id" "tags" (Some "evidence")
                 [row_padded; row_q1]) !! r = Some e2
          ∧ Engine.count e = Engine.count e1 + Engine.count e2
          ∧ Engine.ids e = Engine.ids e1 ++ Engine.ids e2.
Proof.
  destruct (@X8_aggregation_of_concatenated_input canonical_iter
              "id" "tags" (Some "evidence") [row_q1] [row_padded; row_q1])
    as [_ Hcat].
  apply (Hcat (EngineSpec.final_state "id" "tags" (Some "evidence") [row_q1])
              (EngineSpec.final_state "id" "tags" (Some "evidence")
                 [row_padded; row_q1])).
  - vm_compute. reflexivity.
  - vm_compute. reflexivity.
Defined.





(** X10.  The three files of a completed run of [engine_cli] agree with
    each other: the summary counts every input row, its per-requirement
    counts are the [Count] column of the coverage table in the same order,
    its gap count is the number of rows of the gap table, it names the two
    tables by their paths, and no count and no number of gaps exceeds the
    number of rows. *)
Theorem X10_artifacts_agree `{SetIter} (OUTD : string) (t : Engine.Table)
  (fs : Fs Engine.File) :
  run (Engine.main OUTD (Some t)) = (Ok tt, fs) →
  ∃ table gaps summary,
    fs = [ (OUTD +:+ "/phase2_coverage.csv", Engine.CoverageCsv table);
           (OUTD +:+ "/phase2_missing_evidence.csv", Engine.GapsCsv gaps);
           (OUTD +:+ "/phase2_summary.json", Engine.SummaryJson summary) ]
    ∧ Engine.total_questions summary = length (Engine.rows t)
    ∧ Engine.requirements summary
      = (λ crow, (Engine.Requirement crow, Engine.Count crow)) <$> table
    ∧ Engine.missing_evidence_count summary = length gaps
    ∧ Engine.artifacts summary
      = [ ("coverage_csv", OUTD +:+ "/phase2_coverage.csv");
          ("missing_evidence_csv", OUTD +:+ "/phase2_missing_evidence.csv") ]
    ∧ Forall (λ crow, Engine.Count crow ≤ Engine.total_questions summary) table
    ∧ length gaps ≤ Engine.total_questions summary.
Proof.
  rewrite engine_run.
  destruct (Engine.idcol_of t) as [idcol|]; [|done].
  destruct (Engine.tagcol_of t) as [tagcol|]; [|done].
  case_decide; [|done]. intros [= <-]. unfold EngineSpec.files.
  eexists _, _, _. split_and!; [done|done| |done|done| |].
  - cbn [Engine.requirements]. rewrite <- list_fmap_compose.
    by apply list_fmap_ext.
  - cbn [Engine.total_questions]. apply Forall_fmap, Forall_forall.
    intros r _. cbn [compose EngineSpec.table_row Engine.Count].
    unfold EngineSpec.ids_for. rewrite length_fmap. apply length_filter.
  - cbn [Engine.total_questions]. unfold EngineSpec.gaps.
    rewrite length_fmap. apply length_filter.
Qed.

Lemma X10_witness :
  ∃ table gaps summary,
    EngineSpec.files "id" "tags" (Engine.evcol_of table_dup) "out"
      (Engine.rows table_dup)
    = [ ("out" +:+ "/phase2_coverage.csv", Engine.CoverageCsv table);
        ("out" +:+ "/phase2_missing_evidence.csv", Engine.GapsCsv gaps);
        ("out" +:+ "/phase2_summary.json", Engine.SummaryJson summary) ]
    ∧ Engine.total_questions summary = length (Engine.rows table_dup)
    ∧ Engine.requirements summary
      = (λ crow, (Engine.Requirement crow, Engine.Count crow)) <$> table
    ∧ Engine.missing_evidence_count summary = length gaps
    ∧ Engine.artifacts summary
      = [ ("coverage_csv", "out" +:+ "/phase2_coverage.csv");
          ("missing_evidence_csv", "out" +:+ "/phase2_missing_evidence.csv") ]
    ∧ Forall (λ crow, Engine.Count crow ≤ Engine.total_questions summary) table
    ∧ length gaps ≤ Engine.total_questions summary.
Proof.
  apply (@X10_artifacts_agree canonical_iter "out" table_dup).
  vm_compute. reflexivity.
Defined.

(** X11.  [engine_cli] writes all of its files or none: whatever the
    input, a run either returns normally after writing exactly the
    coverage table, the gap table and the summary, in that order, or stops
    with a non-zero status before anything is written. *)
Theorem X11_all_files_or_none `{SetIter} (OUTD : string)
  (qcsv : option Engine.Table) :
  (∃ cov gaps summary,
     run (Engine.main OUTD qcsv)
     = (Ok tt,
        [ (OUTD +:+ "/phase2_coverage.csv", Engine.CoverageCsv cov);
          (OUTD +:+ "/phase2_missing_evidence.csv", Engine.GapsCsv gaps);
          (OUTD +:+ "/phase2_summary.json", Engine.SummaryJson summary) ]))
  ∨ (∃ r, run (Engine.main OUTD qcsv) = (r, [])
          ∧ exit_status r ≠ 0%Z).
Proof.
  rewrite engine_run. destruct qcsv as [t|]; [|right; eauto].
  destruct (Engine.idcol_of t) as [idcol|]; [|right; eauto].
  destruct (Engine.tagcol_of t) as [tagcol|]; [|right; eauto].
  case_decide; [|right; eauto]. left. unfold EngineSpec.files. eauto.
Qed.

(** X12.  Without an evidence column every record that carries the
    marker is a gap: the loop of [engine_cli] never fails on the evidence,
    it completes as soon as every row has its id cell, and the gap list is
    the list of the marked rows in input order. *)
Theorem X12_no_evidence_column `{SetIter} (idcol tagcol : string)
  (rows : list Row) :
  Forall (λ row, EngineSpec.id_cell idcol row ≠ None) rows →
  ∃ st,
    Engine.aggregate idcol tagcol None rows = Ok st
    ∧ Engine.missing_ev st
      = EngineSpec.gap_entry idcol tagcol
          <$> filter (EngineSpec.marked tagcol) rows.
Proof.
  intros Hrows. eexists. split.
  - apply aggregate_Ok. split; [|done].
    eapply Forall_impl; [done|]. intros row Hid. split; [done|]. by intros _.
  - cbn [EngineSpec.final_state Engine.missing_ev]. unfold EngineSpec.gaps.
    f_equal. apply list_filter_iff. intros row.
    unfold EngineSpec.is_gap. cbn [EngineSpec.ev_cell EngineSpec.blank].
    split; [by intros [? _]|]. intros Hm. split; [done|]. reflexivity.
Qed.

Lemma X12_witness :
  ∃ st,
    @Engine.aggregate canonical_iter "id" "tags" None [row_short; row_padded]
    = Ok st
    ∧ Engine.missing_ev st
      = EngineSpec.gap_entry "id" "tags"
          <$> filter (EngineSpec.marked "tags") [row_short; row_padded].
Proof.
  apply (@X12_no_evidence_column canonical_iter "id" "tags"
           [row_short; row_padded]).
  repeat constructor; discriminate.
Defined.

(** ** [extract_pdf_fields] *)

Section Dict.
Context {V : Type}.
Implicit Types (d evs : list (string * V)) (k : string) (v : V).

Lemma dict_get_set d k k' v :
  dict_get (dict_set k v d) k'
  = if decide (k = k') then Some v else dict_get d k'.
Proof.
  induction d as [|[k0 v0] d IH]; cbn [dict_set dict_get].
  - done.
  - destruct (decide (k0 = k)) as [->|Hne]; cbn [dict_get].
    + by repeat case_decide.
    + rewrite IH. repeat case_decide; by simplify_eq.
Qed.

Lemma keys_dict_set d k v : (dict_set k v d).*1 = add_new k d.*1.
Proof.
  induction d as [|[k0 v0] d IH]; cbn [dict_set]; [done|].
  destruct (decide (k0 = k)) as [->|Hne].
  - csimpl. unfold add_new. by rewrite decide_True by left.
  - csimpl. rewrite IH. unfold add_new.
    destruct (decide (k ∈ d.*1)) as [Hin|Hin].
    + by rewrite decide_True by by right.
    + rewrite decide_False; [done|]. rewrite not_elem_of_cons. naive_solver.
Qed.

Lemma keys_assign_all evs d :
  (assign_all evs d).*1 = foldl (λ acc k, add_new k acc) d.*1 evs.*1.
Proof.
  unfold assign_all. revert d.
  induction evs as [|[k v] evs IH]; intros d; [done|].
  csimpl. by rewrite IH, keys_dict_set.
Qed.

Lemma dict_get_assign_all evs d k :
  dict_get (assign_all evs d) k
  = match last (filter (λ kv, kv.1 = k) evs) with
    | Some kv => Some kv.2
    | None => dict_get d k
    end.
Proof.
  revert d. induction evs as [|[k0 v0] evs IH] using rev_ind; intros d; [done|].
  unfold assign_all in *. rewrite foldl_app. cbn [foldl fst snd].
  rewrite dict_get_set, filter_app, filter_cons, filter_nil. cbn [fst].
  case_decide as Hk.
  - by rewrite last_snoc.
  - by rewrite app_nil_r, IH.
Qed.
End Dict.

Lemma scan_annots_assign pi annots fields :
  Phase0Rest.scan_annots pi annots fields
  = assign_all (page_events pi (Some annots)) fields.
Proof.
  unfold Phase0Rest.scan_annots, assign_all, page_events. revert fields.
  induction annots as [|a annots IH]; intros fields; [done|].
  cbn [foldl]. rewrite IH.
  destruct (a ≫= Phase0Rest.annot_entry pi) as [[name entry]|] eqn:Ha;
    csimpl; rewrite Ha; reflexivity.
Qed.

Lemma scan_pages_assign pi pages fields :
  Phase0Rest.scan_pages pi pages fields
  = assign_all (scan_events pi pages) fields.
Proof.
  revert pi fields. induction pages as [|page pages IH]; intros pi fields.
  - done.
  - cbn [Phase0Rest.scan_pages scan_events]. rewrite IH.
    unfold assign_all at 2. rewrite foldl_app. fold (@assign_all Phase0.PdfField).
    destruct page as [annots|]; [|done]. by rewrite scan_annots_assign.
Qed.

Lemma keys_assign_all_nil {V} (evs : list (string * V)) :
  (assign_all evs []).*1 = first_seen evs.*1.
Proof. rewrite keys_assign_all. apply foldl_add_new_nil. Qed.

Lemma assign_all_nil {V} (evs : list (string * V)) :
  assign_all evs [] = [] ↔ evs = [].
Proof.
  split; [|by intros ->]. intros Hnil. apply (f_equal (fmap fst)) in Hnil.
  rewrite keys_assign_all_nil in Hnil.
  destruct evs as [|[k v] evs]; [done|]. csimpl in Hnil. discriminate.
Qed.

Lemma elem_of_dict_set {V} (d : list (string * V)) k v kv :
  kv ∈ dict_set k v d → kv ∈ d ∨ kv = (k, v).
Proof.
  induction d as [|[k0 v0] d IH]; cbn [dict_set].
  - intros ->%list_elem_of_singleton. by right.
  - case_decide; rewrite !elem_of_cons; [naive_solver|].
    intros [->|Hin]; [by left; left|]. naive_solver.
Qed.

Lemma elem_of_assign_all {V} (evs : list (string * V)) kv :
  kv ∈ assign_all evs [] → kv ∈ evs.
Proof.
  revert kv. induction evs as [|[k v] evs IH] using rev_ind; intros kv.
  - by intros ?%elem_of_nil.
  - unfold assign_all in *. rewrite foldl_app. cbn [foldl fst snd].
    intros [Hin| ->]%elem_of_dict_set; rewrite elem_of_app, list_elem_of_singleton.
    + left. by apply IH.
    + by right.
Qed.

Lemma elem_of_page_events pi page name f :
  (name, f) ∈ page_events pi page →
  Phase0.bind_to f = "" ∧ Phase0.page f = Some pi
  ∧ name ≠ "" ∧ Phase0.type f ≠ "".
Proof.
  destruct page as [annots|]; [|by intros ?%elem_of_nil].
  cbn [page_events]. rewrite list_elem_of_omap. intros ([a|] & _ & Ha); [|done].
  cbn [mbind option_bind] in Ha. unfold Phase0Rest.annot_entry in Ha.
  destruct (Phase0Rest.T a) as [nm|]; [|done].
  destruct (Py.truthy nm) eqn:Hnm; [|done]. simplify_eq. cbn.
  split_and!; try done.
  - intros ->. done.
  - unfold Phase0Rest.type_of. destruct (Phase0Rest.FT a) as [ft|]; [|done].
    destruct (Py.truthy ft) eqn:Hft; [|done]. intros ->. done.
Qed.

Lemma elem_of_scan_events pi pages name f :
  (name, f) ∈ scan_events pi pages →
  Phase0.bind_to f = ""
  ∧ (∃ i, Phase0.page f = Some (pi + i) ∧ i < length pages)
  ∧ name ≠ "" ∧ Phase0.type f ≠ "".
Proof.
  revert pi. induction pages as [|page pages IH]; intros pi.
  - by intros ?%elem_of_nil.
  - cbn [scan_events]. rewrite elem_of_app.
    intros [(? & ? & ? & ?)%elem_of_page_events | Hin].
    + split_and!; try done. exists 0. split; [by rewrite Nat.add_0_r|simpl; lia].
    + apply IH in Hin as (? & (i & Hi & ?) & ? & ?). split_and!; try done.
      exists (S i). split; [by rewrite Hi; f_equal; lia|simpl; lia].
Qed.

Lemma from_get_fields_assign raw fields :
  Phase0Rest.from_get_fields raw fields
  = assign_all (fallback_entry <$> readable raw) fields.
Proof.
  revert fields. induction raw as [|[k [ft|]] raw IH]; intros fields; [done| |done].
  cbn [Phase0Rest.from_get_fields readable]. by rewrite IH.
Qed.

(** What [extract_pdf_fields] returns on a template that opens. *)
Lemma extract_pdf_fields_opened (r : Phase0Rest.Reader) :
  let evs := scan_events 0 (Phase0Rest.pages r) in
  let raw := default [] (Phase0Rest.get_fields r) in
  Phase0Rest.extract_pdf_fields (Phase0Rest.Opened r)
  = Ok (if decide (evs = [])
        then assign_all (fallback_entry <$> readable raw) []
        else assign_all evs []).
Proof.
  intros evs raw. unfold Phase0Rest.extract_pdf_fields.
  rewrite scan_pages_assign. fold evs. case_decide as Hevs.
  - rewrite Hevs. cbn [assign_all foldl]. f_equal. apply from_get_fields_assign.
  - assert (assign_all evs [] ≠ []) as Hfields by by rewrite assign_all_nil.
    by destruct (assign_all evs []).
Qed.


(** X13. When the page scan of [extract_pdf_fields] meets at least one
    named annotation, the binding map lists each name once, in the order
    of first appearance, and the entry kept for a name is the one made
    by its last annotation: a field that recurs on a later page is
    reported with that later page and type. *)
Theorem X13_last_annotation_wins (r : Phase0Rest.Reader) :
  let evs := scan_events 0 (Phase0Rest.pages r) in
  evs ≠ [] →
  ∃ fields,
    Phase0Rest.extract_pdf_fields (Phase0Rest.Opened r) = Ok fields
    ∧ fields.*1 = first_seen evs.*1
    ∧ ∀ name,
        dict_get fields name = snd <$> last (filter (λ kv, kv.1 = name) evs).
Proof.
  intros evs Hne. exists (assign_all evs []).
  assert (assign_all evs [] ≠ []) as Hfields by by rewrite assign_all_nil.
  split_and!.
  - unfold Phase0Rest.extract_pdf_fields. rewrite scan_pages_assign.
    fold evs. by destruct (assign_all evs []).
  - by rewrite keys_assign_all_nil.
  - intros name. rewrite dict_get_assign_all.
    by destruct (last _).
Qed.

Lemma X13_witness :
  ∃ fields,
    Phase0Rest.extract_pdf_fields (Phase0Rest.Opened two_page_form) = Ok fields
    ∧ fields.*1 = first_seen (scan_events 0 (Phase0Rest.pages two_page_form)).*1
    ∧ ∀ name,
        dict_get fields name
        = snd <$> last (filter (λ kv, kv.1 = name)
                               (scan_events 0 (Phase0Rest.pages two_page_form))).
Proof.
  apply (X13_last_annotation_wins two_page_form). vm_compute. discriminate.
Defined.

Example two_page_form_fields :
  Phase0Rest.extract_pdf_fields (Phase0Rest.Opened two_page_form)
  = Ok [("sig", {| Phase0.bind_to := ""; Phase0.page := Some 2;
                   Phase0.type := "/Sig" |});
        ("date", {| Phase0.bind_to := ""; Phase0.page := Some 0;
                    Phase0.type := "Unknown" |})].
Proof. vm_compute. reflexivity. Qed.

(** X14. On a template that opens, [extract_pdf_fields] returns without
    an error, every entry has an empty [bind_to] and no name occurs
    twice.  The entries all come from the page scan (a page index below
    the number of pages, a non-empty name and a non-empty type) or all
    come from [get_fields] (no page, the names of the items read before
    one fails, in their order); [get_fields] is consulted exactly when
    the page scan has found no named annotation. *)
Theorem X14_scan_or_fallback (r : Phase0Rest.Reader) :
  ∃ fields,
    Phase0Rest.extract_pdf_fields (Phase0Rest.Opened r) = Ok fields
    ∧ NoDup fields.*1
    ∧ Forall (λ kv, Phase0.bind_to kv.2 = "") fields
    ∧ if decide (scan_events 0 (Phase0Rest.pages r) = [])
      then fields.*1
           = first_seen (readable (default [] (Phase0Rest.get_fields r))).*1
           ∧ Forall (λ kv, Phase0.page kv.2 = None) fields
      else fields ≠ []
           ∧ Forall (λ kv, (∃ pi, Phase0.page kv.2 = Some pi
                                  ∧ pi < length (Phase0Rest.pages r))
                           ∧ kv.1 ≠ "" ∧ Phase0.type kv.2 ≠ "") fields.
Proof.
  rewrite extract_pdf_fields_opened.
  set (evs := scan_events 0 (Phase0Rest.pages r)).
  set (raw := readable (default [] (Phase0Rest.get_fields r))).
  eexists. split; [done|]. case_decide as Hevs.
  - assert ((assign_all (fallback_entry <$> raw) []).*1 = first_seen raw.*1)
      as Hkeys.
    { rewrite keys_assign_all_nil. f_equal.
      rewrite <- list_fmap_compose. by apply list_fmap_ext. }
    split_and!.
    + rewrite Hkeys. apply NoDup_first_seen.
    + apply Forall_forall. intros kv Hin%elem_of_assign_all.
      apply list_elem_of_fmap in Hin as (x & -> & _). done.
    + done.
    + apply Forall_forall. intros kv Hin%elem_of_assign_all.
      apply list_elem_of_fmap in Hin as (x & -> & _). done.
  - assert (assign_all evs [] ≠ []) as Hfields by by rewrite assign_all_nil.
    split_and!.
    + rewrite keys_assign_all_nil. apply NoDup_first_seen.
    + apply Forall_forall. intros [name f] Hin%elem_of_assign_all.
      by apply elem_of_scan_events in Hin as (? & _).
    + done.
    + apply Forall_forall. intros [name f] Hin%elem_of_assign_all.
      apply elem_of_scan_events in Hin as (? & (i & Hi & ?) & ? & ?).
      split_and!; try done. exists i. done.
Qed.

Example flat_form_fields :
  Phase0Rest.extract_pdf_fields (Phase0Rest.Opened flat_form)
  = Ok [("name", {| Phase0.bind_to := ""; Phase0.page := None;
                    Phase0.type := "/Tx" |});
        ("", {| Phase0.bind_to := ""; Phase0.page := None;
                Phase0.type := "Unknown" |})].
Proof. vm_compute. reflexivity. Qed.

(** ** [main] of [phase0_generate_reports.py] *)


Lemma omap_total {A B} (f : A → option B) (g : A → B) (l : list A) :
  (∀ x, x ∈ l → f x = Some (g x)) → omap f l = g <$> l.
Proof.
  induction l as [|x l IH]; intros Hf; [done|]. csimpl.
  rewrite Hf by left. csimpl. f_equal. apply IH. intros y Hy. apply Hf. by right.
Qed.

Lemma items_cov_spec rows :
  Phase0Rest.items (Phase0Spec.cov_spec rows)
  = (λ c, (c, Phase0Spec.ids_for rows c)) <$> Phase0.REQS.
Proof.
  apply omap_total. intros c Hc. by rewrite lookup_cov_spec, decide_True.
Qed.

Lemma filter_keys_fmap {A B} (g : A → B) (P : B → Prop) `{∀ b, Decision (P b)}
    (l : list A) :
  filter P (g <$> l) = g <$> filter (λ x, P (g x)) l.
Proof.
  induction l as [|x l IH]; [done|]. csimpl. rewrite !filter_cons, IH.
  by case_decide.
Qed.

Lemma filter_iff_in {A} (P1 P2 : A → Prop)
    `{∀ x, Decision (P1 x)} `{∀ x, Decision (P2 x)} (l : list A) :
  (∀ x, x ∈ l → P1 x ↔ P2 x) → filter P1 l = filter P2 l.
Proof.
  induction l as [|x l IH]; intros Hiff; [done|]. rewrite !filter_cons.
  rewrite IH by (intros y Hy; apply Hiff; by right).
  destruct (Hiff x) as [H12 H21]; [by left|]. by repeat case_decide; try tauto.
Qed.

Lemma first_seen_nil {A} `{EqDecision A} (l : list A) :
  first_seen l = [] ↔ l = [].
Proof. by destruct l. Qed.

(** X16. The [gaps] list that [main] computes from the ledger names, in
    the order of [REQS], the codes whose row of the coverage report says
    ["N"]: a code is a gap exactly when it is one of the 17 codes and no
    record of the table carries it. *)
Theorem X16_gaps_are_the_uncovered_codes `{SetIter}
    (rows : list Row) (cov : gmap string (list string)) :
  Phase0.coverage_from_rows rows = Ok cov →
  Phase0Rest.gaps cov
  = filter (λ c, Phase0.Covered (Phase0.cov_row cov c) = "N") Phase0.REQS
  ∧ ∀ c, c ∈ Phase0Rest.gaps cov
         ↔ c ∈ Phase0.REQS
           ∧ ∀ row, row ∈ rows →
               c ∉ Phase0Spec.row_codes (Phase0Spec.txt_field_of rows)
                                        (Phase0Spec.tag_fields_of rows) row.
Proof.
  rewrite coverage_from_rows_spec. intros [= <-].
  assert (Phase0Rest.gaps (Phase0Spec.cov_spec rows)
          = filter (λ c, Phase0Spec.ids_for rows c = []) Phase0.REQS) as Hgaps.
  { unfold Phase0Rest.gaps. rewrite items_cov_spec.
    rewrite (filter_keys_fmap _ (λ kv, kv.2 = [])).
    rewrite <- list_fmap_compose. apply list_fmap_id. }
  split.
  - rewrite Hgaps. apply filter_iff_in. intros c Hc.
    rewrite cov_row_spec by done. unfold Phase0Spec.table_row. cbn.
    by destruct (Phase0Spec.ids_for rows c).
  - intros c. rewrite Hgaps, list_elem_of_filter.
    unfold Phase0Spec.ids_for. rewrite first_seen_nil. split.
    + intros [Hnil Hc]. split; [done|]. intros row Hrow Hcode.
      apply list_elem_of_lookup in Hrow as [i Hi].
      assert (Phase0.qid_of (Phase0Spec.id_field_of rows) (S i) row
              ∈ Phase0Spec.matching_ids rows c) as Hin
        by (apply elem_of_matching_ids; eauto).
      rewrite Hnil in Hin. by apply elem_of_nil in Hin.
    + intros [Hc Hno]. split; [|done].
      destruct (Phase0Spec.matching_ids rows c) as [|q l] eqn:Hm; [done|].
      assert (q ∈ Phase0Spec.matching_ids rows c) as Hq by (rewrite Hm; left).
      apply elem_of_matching_ids in Hq as (i & row & Hrow & _ & Hcode).
      destruct (Hno row); [by eapply list_elem_of_lookup_2|done].
Qed.

Lemma X16_witness :
  Phase0Rest.gaps (Phase0Spec.cov_spec [row_q2; row_q1])
  = filter (λ c, Phase0.Covered
                   (Phase0.cov_row (Phase0Spec.cov_spec [row_q2; row_q1]) c) = "N")
           Phase0.REQS
  ∧ ∀ c, c ∈ Phase0Rest.gaps (Phase0Spec.cov_spec [row_q2; row_q1])
         ↔ c ∈ Phase0.REQS
           ∧ ∀ row, row ∈ [row_q2; row_q1] →
               c ∉ Phase0Spec.row_codes
                     (Phase0Spec.txt_field_of [row_q2; row_q1])
                     (Phase0Spec.tag_fields_of [row_q2; row_q1]) row.
Proof.
  apply (@X16_gaps_are_the_uncovered_codes canonical_iter [row_q2; row_q1]).
  vm_compute. reflexivity.
Defined.

Example gaps_example :
  Phase0Rest.gaps (Phase0Spec.cov_spec [row_q2; row_q1])
  = ["CR2"; "CR4"; "CR5"; "CR6"; "CR7"; "CR8"; "CR9";
     "A"; "B"; "C"; "D"; "E"; "F"; "G"].
Proof. vm_compute. reflexivity. Qed.
